(** * Vector (src/vector.ts): a shallow embedding and its properties

    The class [Vector] wraps an array of JavaScript numbers.  Its methods
    are three-line wrappers around the ECMAScript built-ins
    [Array.prototype.map / slice / every / join], [Number.prototype.toString]
    and [parseFloat], so the embedding consists of

    - [Num]: IEEE-754 binary64 values ([spec_float] of the Standard Library)
      with strict equality [===] and round-to-nearest-even of a ratio;
    - [Str]: [Number::toString] (radix 10) and [parseFloat] on strings;
    - [Arr]: the array built-ins the class calls;
    - [Vector]: the class itself, method by method;
    - [Heap]: the same methods over a store of objects, where array and
      [Vector] instances are references.                                    *)

From Stdlib Require Import ZArith List Bool Ascii String Lia.
From Stdlib Require Import Floats.SpecFloat.
Import ListNotations.

Local Open Scope Z_scope.

(** ** Numbers *)

Module Num.

(** A JavaScript number is an IEEE-754 binary64 value. *)
Definition prec : Z := 53.
Definition emax : Z := 1024.

Definition number : Type := spec_float.

(** The [spec_float]s that are binary64 values: finite ones have a
    canonical mantissa and exponent. *)
Definition is_double (x : number) : bool := valid_binary prec emax x.

Definition NaN : number := S754_nan.
Definition pos_zero : number := S754_zero false.
Definition neg_zero : number := S754_zero true.
Definition Infinity : number := S754_infinity false.

Definition isNaN (x : number) : bool :=
  match x with S754_nan => true | _ => false end.

(** [x === y] on two numbers: IEEE equality, so [NaN] differs from
    everything and [+0 === -0]. *)
Definition strict_eq (x y : number) : bool := SFeqb x y.

(** Structural identity of two numbers (the same [spec_float]). *)
Definition same (x y : number) : bool :=
  match x, y with
  | S754_zero s1, S754_zero s2 => Bool.eqb s1 s2
  | S754_infinity s1, S754_infinity s2 => Bool.eqb s1 s2
  | S754_nan, S754_nan => true
  | S754_finite s1 m1 e1, S754_finite s2 m2 e2 =>
      Bool.eqb s1 s2 && Pos.eqb m1 m2 && Z.eqb e1 e2
  | _, _ => false
  end.

(** [pow2_le X a b]: whether [2^X <= a / b], for [0 < b]. *)
Definition pow2_le (X a b : Z) : bool :=
  if 0 <=? X then b * 2 ^ X <=? a else b <=? a * 2 ^ (- X).

(** [floor (log2 (a / b))] for [0 < a] and [0 < b]: the difference of the
    bit lengths is this or one more. *)
Definition ilog2_ratio (a b : Z) : Z :=
  let E0 := Z.log2 a - Z.log2 b in
  if pow2_le E0 a b then E0 else E0 - 1.

(** The integer nearest to [a / b], ties to even ([0 <= a], [0 < b]). *)
Definition round_nearest_even (a b : Z) : Z :=
  let q := a / b in
  let r := a mod b in
  match 2 * r ?= b with
  | Lt => q
  | Gt => q + 1
  | Eq => if Z.even q then q else q + 1
  end.

(** The binary64 value nearest to [a / b] ([0 < a], [0 < b]), ties to
    even, with the sign [sign]: the exponent is the canonical one of the
    binade of [a / b]; a mantissa rounded up to [2^53] moves to the next
    binade, and an exponent above the largest one gives infinity. *)
Definition round_ratio (sign : bool) (a b : Z) : number :=
  let E := ilog2_ratio a b in
  let e := fexp prec emax (E + 1) in
  let m := if 0 <=? e then round_nearest_even a (b * 2 ^ e)
           else round_nearest_even (a * 2 ^ (- e)) b in
  let '(m', e') := if m =? 2 ^ prec then (2 ^ (prec - 1), e + 1) else (m, e) in
  match m' with
  | Zpos p => if e' <=? emax - prec then S754_finite sign p e'
              else S754_infinity sign
  | _ => S754_zero sign
  end.

(** The number denoted by the decimal [M * 10^E] ([0 <= M]) with sign
    [neg]: a zero keeps its sign. *)
Definition of_decimal (neg : bool) (M E : Z) : number :=
  if M =? 0 then S754_zero neg
  else if 0 <=? E then round_ratio neg (M * 10 ^ E) 1
  else round_ratio neg M (10 ^ (- E)).

(** A finite positive value [m * 2^e] as a ratio of integers. *)
Definition ratio_of (m : positive) (e : Z) : Z * Z :=
  if 0 <=? e then (Zpos m * 2 ^ e, 1) else (Zpos m, 2 ^ (- e)).

(** [ToIntegerOrInfinity]: [NaN] and the zeros give 0, a finite value is
    truncated towards zero, the infinities are kept. *)
Inductive int_or_inf : Type :=
| Int (z : Z)
| PosInf
| NegInf.

Definition ToIntegerOrInfinity (x : number) : int_or_inf :=
  match x with
  | S754_nan => Int 0
  | S754_zero _ => Int 0
  | S754_infinity false => PosInf
  | S754_infinity true => NegInf
  | S754_finite s m e =>
      let t := if 0 <=? e then Zpos m * 2 ^ e else Zpos m / 2 ^ (- e) in
      Int (if s then - t else t)
  end.

(** The number of an integer (exact below [2^53], rounded above). *)
Definition of_Z (z : Z) : number :=
  of_decimal (z <? 0) (Z.abs z) 0.

End Num.

(** ** Strings of decimal digits, [Number::toString] and [parseFloat] *)

Module Str.
Import Num.
Local Open Scope string_scope.
Local Open Scope Z_scope.

(** Code units are 8-bit here: the strings the class produces and reads
    (digits, signs, [.], [e], [Infinity], [NaN]) are ASCII. *)
Definition is_digit (c : ascii) : bool :=
  let n := nat_of_ascii c in (48 <=? n)%nat && (n <=? 57)%nat.

Definition digit_val (c : ascii) : Z := Z.of_nat (nat_of_ascii c) - 48.

Definition digit_char (d : Z) : ascii := ascii_of_nat (Z.to_nat (48 + d)).

(** The [k] least significant decimal digits of [s], most significant
    first. *)
Fixpoint digits (k : nat) (s : Z) : string :=
  match k with
  | O => ""
  | S k' => digits k' (s / 10) ++ String (digit_char (s mod 10)) ""
  end.

Fixpoint zeros (j : nat) : string :=
  match j with
  | O => ""
  | S j' => String "0" (zeros j')
  end.

(** The number of decimal digits of [z] (1 for [z < 10]). *)
Fixpoint ndigits_from (fuel : nat) (z : Z) : nat :=
  match fuel with
  | O => 1
  | S f => if z <? 10 then 1%nat else S (ndigits_from f (z / 10))
  end.

Definition ndigits (z : Z) : nat := ndigits_from (Z.to_nat (Z.log2 z) + 1) z.

(** The decimal representation of [0 <= z], with no leading zero. *)
Definition Z_to_decimal (z : Z) : string := digits (ndigits z) z.

(** *** Number::toString(x), radix 10 *)

(** The exponent part: [e], the sign of [e] and its absolute value. *)
Definition exponent_text (e : Z) : string :=
  "e" ++ (if e <? 0 then "-" else "+") ++ Z_to_decimal (Z.abs e).

(** Steps 6 to 10: the text for the digits [s] ([k] of them) and the
    decimal point position [n], where the value is [s * 10^(n - k)]. *)
Definition format_decimal (k : nat) (n s : Z) : string :=
  let kz := Z.of_nat k in
  if (kz <=? n) && (n <=? 21) then
    digits k s ++ zeros (Z.to_nat (n - kz))
  else if (0 <? n) && (n <=? 21) then
    digits (Z.to_nat n) (s / 10 ^ (kz - n)) ++ "."
      ++ digits (Z.to_nat (kz - n)) (s mod 10 ^ (kz - n))
  else if (-6 <? n) && (n <=? 0) then
    "0." ++ zeros (Z.to_nat (- n)) ++ digits k s
  else if (k =? 1)%nat then
    digits 1 s ++ exponent_text (n - 1)
  else
    digits 1 (s / 10 ^ (kz - 1)) ++ "."
      ++ digits (k - 1) (s mod 10 ^ (kz - 1)) ++ exponent_text (n - 1).

(** [pow10_le j a b]: whether [10^j <= a / b], for [0 < b]. *)
Definition pow10_le (j a b : Z) : bool :=
  if 0 <=? j then b * 10 ^ j <=? a else b <=? a * 10 ^ (- j).

(** The [n] with [10^(n-1) <= a / b < 10^n], corrected from an estimate. *)
Fixpoint decimal_exponent_from (fuel : nat) (n a b : Z) : Z :=
  match fuel with
  | O => n
  | S f =>
      if negb (pow10_le (n - 1) a b) then decimal_exponent_from f (n - 1) a b
      else if pow10_le n a b then decimal_exponent_from f (n + 1) a b
      else n
  end.

Definition decimal_exponent (a b : Z) : Z :=
  decimal_exponent_from 8 (ilog2_ratio a b * 30103 / 100000 + 1) a b.

(** The [k]-digit decimals next to [a / b], as pairs [(n, s)], the nearer
    one first; [10^k] is written [10^(k-1)] one position up. *)
Definition candidates (k : nat) (n0 a b : Z) : list (Z * Z) :=
  let kz := Z.of_nat k in
  let j := kz - n0 in
  let num := if 0 <=? j then a * 10 ^ j else a in
  let den := if 0 <=? j then b else b * 10 ^ (- j) in
  let lo := num / den in
  let norm s := if s =? 10 ^ kz then (n0 + 1, 10 ^ (kz - 1)) else (n0, s) in
  if 2 * (num mod den) <? den then [norm lo; norm (lo + 1)]
  else [norm (lo + 1); norm lo].

(** [s] has [k] digits and [s * 10^(n - k)] rounds to [x]. *)
Definition denotes (x : number) (k : nat) (ns : Z * Z) : bool :=
  let '(n, s) := ns in
  let kz := Z.of_nat k in
  (1 <=? kz) && (10 ^ (kz - 1) <=? s) && (s <? 10 ^ kz)
  && same (of_decimal false s (n - kz)) x.

(** Step 5: [n], [k] and [s] with [k] as small as possible, looked for
    among [k], [k+1], ... ([fuel] of them). *)
Fixpoint shortest_from (fuel k : nat) (x : number) (n0 a b : Z)
  : option (nat * Z * Z) :=
  match fuel with
  | O => None
  | S f =>
      match find (denotes x k) (candidates k n0 a b) with
      | Some (n, s) => Some (k, n, s)
      | None => shortest_from f (S k) x n0 a b
      end
  end.

(** The exact decimal expansion of [m * 2^e]: [m * 2^e] itself, or
    [m * 5^(-e) * 10^e]. *)
Definition exact_digits (m : positive) (e : Z) : nat * Z * Z :=
  let s := if 0 <=? e then Zpos m * 2 ^ e else Zpos m * 5 ^ (- e) in
  let k := ndigits s in
  (k, Z.of_nat k + (if 0 <=? e then 0 else e), s).

(** Seventeen digits tell any two binary64 values apart, so the search
    ends within its fuel on every binary64 value; the exact expansion
    keeps the function total without relying on that. *)
Definition decimal_digits (m : positive) (e : Z) : nat * Z * Z :=
  let '(a, b) := ratio_of m e in
  match shortest_from 17 1 (S754_finite false m e) (decimal_exponent a b) a b with
  | Some t => t
  | None => exact_digits m e
  end.

Definition Number_toString (x : number) : string :=
  match x with
  | S754_nan => "NaN"
  | S754_zero _ => "0"
  | S754_infinity s => (if s then "-" else "") ++ "Infinity"
  | S754_finite s m e =>
      let '(k, n, d) := decimal_digits m e in
      (if s then "-" else "") ++ format_decimal k n d
  end.

(** *** parseFloat(string) *)

(** [StrWhiteSpaceChar] among 8-bit code units: TAB, LF, VT, FF, CR,
    SP and NBSP. *)
Definition is_whitespace (c : ascii) : bool :=
  let n := nat_of_ascii c in
  ((9 <=? n)%nat && (n <=? 13)%nat) || (n =? 32)%nat || (n =? 160)%nat.

Fixpoint trim_start (s : string) : string :=
  match s with
  | String c r => if is_whitespace c then trim_start r else s
  | EmptyString => s
  end.

(** An optional sign: whether it is [-], and what follows it. *)
Definition read_sign (s : string) : bool * string :=
  match s with
  | String c r =>
      if Ascii.eqb c "-" then (true, r)
      else if Ascii.eqb c "+" then (false, r)
      else (false, s)
  | EmptyString => (false, s)
  end.

(** The longest run of digits at the start of [s], read onto the value
    [acc] and counted onto [cnt]; and what follows it. *)
Fixpoint read_digits (acc cnt : Z) (s : string) : Z * Z * string :=
  match s with
  | String c r =>
      if is_digit c then read_digits (acc * 10 + digit_val c) (cnt + 1) r
      else (acc, cnt, s)
  | EmptyString => (acc, cnt, s)
  end.

(** [ExponentPart], when [s] starts with one: [e] or [E], an optional
    sign and at least one digit; 0 otherwise. *)
Definition read_exponent (s : string) : Z :=
  match s with
  | String c r =>
      if Ascii.eqb c "e" || Ascii.eqb c "E" then
        let '(neg, r') := read_sign r in
        let '(v, cnt, _) := read_digits 0 0 r' in
        if cnt =? 0 then 0 else if neg then - v else v
      else 0
  | EmptyString => 0
  end.

(** Text at which a run of digits ends. *)
Definition stops (tail : string) : Prop :=
  forall acc cnt, read_digits acc cnt tail = (acc, cnt, tail).

(** [StrUnsignedDecimalLiteral]: [Infinity], or digits with an optional
    fraction and exponent, as far as they go; with no digit at all the
    result is [NaN]. *)
Definition parse_unsigned (neg : bool) (s : string) : number :=
  if prefix "Infinity" s then S754_infinity neg
  else
    let '(a1, c1, r1) := read_digits 0 0 s in
    let '(a2, c2, r2) :=
      match r1 with
      | String c r => if Ascii.eqb c "." then read_digits a1 0 r else (a1, 0, r1)
      | EmptyString => (a1, 0, r1)
      end in
    if c1 + c2 =? 0 then NaN
    else of_decimal neg a2 (read_exponent r2 - c2).

(** The longest prefix of the trimmed input that is a [StrDecimalLiteral]
    is read, what follows it is ignored. *)
Definition parseFloat (input : string) : number :=
  let '(neg, s) := read_sign (trim_start input) in
  parse_unsigned neg s.

End Str.

(** ** Exceptions *)

Module Js.

Inductive JsError : Type :=
| TypeError (message : string)
| Error (message : string).

(** The outcome of an expression that may throw. *)
Inductive Result (A : Type) : Type :=
| Ok (a : A)
| Throw (e : JsError).

Arguments Ok {A} a.
Arguments Throw {A} e.

Definition bind {A B : Type} (r : Result A) (f : A -> Result B) : Result B :=
  match r with
  | Ok a => f a
  | Throw e => Throw e
  end.

Definition throws {A : Type} (r : Result A) : Prop := exists e, r = Throw e.

End Js.

Notation "x <- r ;; k" := (Js.bind r (fun x => k))
  (at level 61, r at next level, right associativity).

(** ** The array built-ins the class calls

    An array of numbers is the list of its elements: the arrays of the
    class are dense ([number[]]), with no holes. *)

Module Arr.
Import Num Str Js.
Local Open Scope string_scope.
Local Open Scope Z_scope.

(** The array index a number denotes when used as a property key: its
    value when it is an integer ([-0] is the key ["0"]); a key that is no
    integer names no element. *)
Definition integer_key (index : number) : option Z :=
  match index with
  | S754_zero _ => Some 0
  | S754_finite s m e =>
      if 0 <=? e then Some ((if s then -1 else 1) * (Zpos m * 2 ^ e))
      else if Zpos m mod 2 ^ (- e) =? 0
           then Some ((if s then -1 else 1) * (Zpos m / 2 ^ (- e)))
           else None
  | _ => None
  end.

(** [a[i]] for an integer [i]: [None] stands for [undefined]. *)
Definition at_index (a : list number) (i : Z) : option number :=
  if (0 <=? i) && (i <? Z.of_nat (List.length a)) then nth_error a (Z.to_nat i)
  else None.

(** [a[index]] for a number [index]. *)
Definition element (a : list number) (index : number) : option number :=
  match integer_key index with
  | Some i => at_index a i
  | None => None
  end.

(** [Array.prototype.map] with a callback that may throw: the elements
    are visited in order and the first exception ends the call. *)
Fixpoint map_result {A B : Type} (f : A -> Result B) (a : list A)
  : Result (list B) :=
  match a with
  | [] => Ok []
  | x :: t => y <- f x ;; r <- map_result f t ;; Ok (y :: r)
  end.

(** In [Array.prototype.slice], a relative bound becomes an index. *)
Definition relative_index (len : Z) (r : int_or_inf) : Z :=
  match r with
  | NegInf => 0
  | PosInf => len
  | Int z => if z <? 0 then Z.max (len + z) 0 else Z.min z len
  end.

(** The loop of [slice]: [count] elements from index [k] on. *)
Fixpoint copy_range (a : list number) (k count : nat) : list number :=
  match count with
  | O => []
  | S c =>
      match nth_error a k with
      | Some x => x :: copy_range a (S k) c
      | None => copy_range a (S k) c
      end
  end.

(** [Array.prototype.slice(start, end)]; [None] is an omitted (or
    [undefined]) argument: a missing [start] is converted like [NaN], to
    0, and a missing [end] is the length. *)
Definition slice (a : list number) (start end_ : option number) : list number :=
  let len := Z.of_nat (List.length a) in
  let k := relative_index len
             (match start with
              | Some x => ToIntegerOrInfinity x
              | None => Int 0
              end) in
  let final := match end_ with
               | Some x => relative_index len (ToIntegerOrInfinity x)
               | None => len
               end in
  copy_range a (Z.to_nat k) (Z.to_nat (Z.max (final - k) 0)).

(** [Array.prototype.every]: the callback receives the element and its
    index; the first [false] ends the loop. *)
Fixpoint every_from (f : number -> nat -> bool) (a : list number) (i : nat)
  : bool :=
  match a with
  | [] => true
  | v :: t => if f v i then every_from f t (S i) else false
  end.

Definition every (f : number -> nat -> bool) (a : list number) : bool :=
  every_from f a 0.

(** [Array.prototype.join(sep)] on numbers: each element is converted
    with [Number::toString]. *)
Fixpoint join (sep : string) (a : list number) : string :=
  match a with
  | [] => ""
  | [x] => Number_toString x
  | x :: t => Number_toString x ++ sep ++ join sep t
  end.

End Arr.

(** ** The class Vector *)

Module Vector.
Import Num Str Js.
Local Open Scope string_scope.
Local Open Scope Z_scope.

(** [const VECTOR_VALUE = 31]. *)
Definition VECTOR_VALUE : number := of_Z 31.

(** [interface VectorDict]. *)
Record DoubleValue : Type := { double_value : number }.

Record ArrayValue : Type := { values : list DoubleValue }.

Record VectorDict : Type := {
  array_value : ArrayValue;
  meaning : number;
  exclude_from_indexes : bool
}.

(** An instance: its one field, [value: number[]]. *)
Record t : Type := { value : list number }.

(** [toString(): string], the template [Vector<${this.value.join(', ')}>]. *)
Definition toString (this : t) : string :=
  "Vector<" ++ Arr.join ", " (value this) ++ ">".

(** The values a caller may pass at run time, where the signatures say
    [number] or [Vector]: primitives, a plain array of numbers, or an
    instance of [Vector]. *)
Inductive JsValue : Type :=
| JsUndefined
| JsNull
| JsBoolean (b : bool)
| JsNumber (n : number)
| JsString (s : string)
| JsArray (a : list number)
| JsVector (v : t).

(** [v.toString()]: reading the property throws on [undefined] and
    [null]; every other value has a [toString] method. *)
Definition call_toString (v : JsValue) : Result string :=
  match v with
  | JsUndefined =>
      Throw (TypeError "Cannot read properties of undefined (reading 'toString')")
  | JsNull =>
      Throw (TypeError "Cannot read properties of null (reading 'toString')")
  | JsBoolean b => Ok (if b then "true" else "false")
  | JsNumber n => Ok (Number_toString n)
  | JsString s => Ok s
  | JsArray a => Ok (Arr.join "," a)
  | JsVector v => Ok (toString v)
  end.

(** The callback of the constructor, [v => parseFloat(v.toString())]. *)
Definition coerce (v : JsValue) : Result number :=
  s <- call_toString v ;; Ok (parseFloat s).

(** [constructor(value: number[])]. *)
Definition constructor (value : list JsValue) : Result t :=
  a <- Arr.map_result coerce value ;; Ok {| value := a |}.

(** [get(index: number): number], [this.value[index]]. *)
Definition get (this : t) (index : number) : JsValue :=
  match Arr.element (value this) index with
  | Some x => JsNumber x
  | None => JsUndefined
  end.

(** [slice(start?: number, end?: number): Vector]. *)
Definition slice (this : t) (start end_ : option number) : Result t :=
  constructor (List.map JsNumber (Arr.slice (value this) start end_)).

(** [get length(): number]. *)
Definition length (this : t) : nat := List.length (value this).

(** [v === other.value[i]] for a number [v]: [undefined] is no number. *)
Definition strict_equals (v : number) (w : option number) : bool :=
  match w with
  | Some y => strict_eq v y
  | None => false
  end.

(** [equals(other: Vector): boolean]. *)
Definition equals (this : t) (other : JsValue) : Result bool :=
  match other with
  | JsVector other =>
      Ok ((List.length (value this) =? List.length (value other))%nat
          && Arr.every
               (fun v i => strict_equals v (Arr.at_index (value other) (Z.of_nat i)))
               (value this))
  | _ => Throw (Error "Cannot compare Vector to a non-Vector object.")
  end.

(** [_toDict(): VectorDict]. *)
Definition _toDict (this : t) : VectorDict :=
  {| array_value :=
       {| values := List.map (fun v => {| double_value := v |}) (value this) |};
     meaning := VECTOR_VALUE;
     exclude_from_indexes := true |}.

End Vector.

(** ** The class over a store of objects

    Arrays and instances are objects with an identity; a field or a
    variable holds a reference.  The store grows by allocation, and an
    assignment to a field or an element of an existing object would be an
    update at its reference. *)

Module Heap.
Import Num Js.

Definition ref : Type := nat.

Inductive object : Type :=
| ArrayObject (elements : list number)
| VectorObject (value : ref).

Definition heap : Type := list object.

Definition lookup (h : heap) (r : ref) : option object := nth_error h r.

Definition alloc (h : heap) (o : object) : heap * ref :=
  (h ++ [o], List.length h).

Definition read_array (h : heap) (r : ref) : option (list number) :=
  match lookup h r with
  | Some (ArrayObject a) => Some a
  | _ => None
  end.

(** [this.value], for [this] an instance in the store. *)
Definition read (h : heap) (this : ref) : option (list number) :=
  match lookup h this with
  | Some (VectorObject a) => read_array h a
  | _ => None
  end.

(** [new Vector(value)]: [map] makes a new array, which the new instance
    stores in its field; the argument array is only read. *)
Definition new (h : heap) (value : list Vector.JsValue) : heap * Result ref :=
  match Arr.map_result Vector.coerce value with
  | Ok a =>
      let '(h1, ra) := alloc h (ArrayObject a) in
      let '(h2, rv) := alloc h1 (VectorObject ra) in
      (h2, Ok rv)
  | Throw e => (h, Throw e)
  end.

(** The methods; [None] when [this] is no instance in the store. *)
Definition get (h : heap) (this : ref) (index : number)
  : option (heap * Vector.JsValue) :=
  match read h this with
  | Some l => Some (h, Vector.get {| Vector.value := l |} index)
  | None => None
  end.

(** [this.value.slice(start, end)] makes a new array, and [new Vector]
    of it a second one. *)
Definition slice (h : heap) (this : ref) (start end_ : option number)
  : option (heap * Result ref) :=
  match read h this with
  | Some l =>
      let '(h1, r1) := alloc h (ArrayObject (Arr.slice l start end_)) in
      match read_array h1 r1 with
      | Some a => Some (new h1 (List.map Vector.JsNumber a))
      | None => None
      end
  | None => None
  end.

Definition length (h : heap) (this : ref) : option (heap * nat) :=
  match read h this with
  | Some l => Some (h, Vector.length {| Vector.value := l |})
  | None => None
  end.

(** [other instanceof Vector] holds of the references to instances. *)
Definition equals (h : heap) (this other : ref) : option (heap * Result bool) :=
  match read h this with
  | Some l =>
      match lookup h other with
      | Some (VectorObject _) =>
          match read h other with
          | Some l' =>
              Some (h, Vector.equals {| Vector.value := l |}
                         (Vector.JsVector {| Vector.value := l' |}))
          | None => None
          end
      | Some (ArrayObject a) =>
          Some (h, Vector.equals {| Vector.value := l |} (Vector.JsArray a))
      | None => None
      end
  | None => None
  end.

Definition toString (h : heap) (this : ref) : option (heap * string) :=
  match read h this with
  | Some l => Some (h, Vector.toString {| Vector.value := l |})
  | None => None
  end.

Definition _toDict (h : heap) (this : ref) : option (heap * Vector.VectorDict) :=
  match read h this with
  | Some l => Some (h, Vector._toDict {| Vector.value := l |})
  | None => None
  end.

End Heap.

(** ** The vocabulary of the specification

    These definitions follow the words of the specification, not the
    source; the properties below relate the source to them. *)

Module Spec.
Import Num.

(** A bound of a slice: counted from the end when negative, and clamped
    to [[0, len]]. *)
Definition bound (len b : Z) : Z :=
  Z.max 0 (Z.min len (if b <? 0 then len + b else b)).

(** The bound an optional argument stands for: [default] when omitted;
    an infinite one is clamped like any bound out of range. *)
Definition bound_of (len default : Z) (x : option number) : Z :=
  match x with
  | None => default
  | Some n =>
      match ToIntegerOrInfinity n with
      | Int z => bound len z
      | PosInf => len
      | NegInf => 0
      end
  end.

(** The half-open sub-range [[lo, hi)] of a sequence. *)
Definition subrange {A : Type} (a : list A) (lo hi : Z) : list A :=
  firstn (Z.to_nat (hi - lo)) (skipn (Z.to_nat lo) a).

(** Element-wise, position-sensitive equality of two sequences of the
    same length, the elements compared with [===]. *)
Definition elementwise (a b : list number) : Prop :=
  List.length a = List.length b
  /\ forall i x y, nth_error a i = Some x -> nth_error b i = Some y ->
                   strict_eq x y = true.

(** A text with a numeric prefix: after leading white space and an
    optional sign come [Infinity], a digit, or a point and a digit. *)
Definition numeric_prefix (s : string) : bool :=
  let '(_, r) := Str.read_sign (Str.trim_start s) in
  prefix "Infinity" r
  || match r with
     | String c r' =>
         Str.is_digit c
         || (Ascii.eqb c "."
             && match r' with
                | String d _ => Str.is_digit d
                | EmptyString => false
                end)
     | EmptyString => false
     end.


(** A number with the zeros written [+0]. *)
Definition positive_zero (x : number) : number :=
  match x with
  | S754_zero _ => S754_zero false
  | _ => x
  end.

End Spec.

(** ** Text of the elements *)

Module Text.
(** A text without the comma that separates the elements in [toString]. *)
Fixpoint comma_free (s : string) : bool :=
  match s with
  | EmptyString => true
  | String c r => negb (Ascii.eqb c ",") && comma_free r
  end.
End Text.

(** ** Kinds of input elements *)

Module Input.
Import Vector.

(** The elements whose [toString] is a method of the language or of the
    class: booleans, numbers, strings, arrays of numbers and instances
    of Vector. *)
Definition has_toString (x : JsValue) : bool :=
  match x with
  | JsBoolean _ | JsNumber _ | JsString _ | JsArray _ | JsVector _ => true
  | JsUndefined | JsNull => false
  end.

(** [undefined] and [null], on which no property can be read. *)
Definition nullish (x : JsValue) : bool :=
  match x with
  | JsUndefined | JsNull => true
  | JsBoolean _ | JsNumber _ | JsString _ | JsArray _ | JsVector _ => false
  end.

End Input.

(* ================================================================== *)
(** * Properties *)

Import Num Str Js.
Import Vector.
Local Open Scope string_scope.
Local Open Scope Z_scope.

(** ** Rounding: a binary64 value is the rounding of itself *)

Lemma digits2_pos_log2 (m : positive) :
  Zpos (digits2_pos m) = Z.log2 (Zpos m) + 1.
Proof.
  induction m as [p IH | p IH | ]; simpl digits2_pos; try reflexivity.
  - rewrite Pos2Z.inj_succ, IH.
    change (Z.pos p~1) with (2 * Z.pos p + 1).
    rewrite Z.log2_succ_double by lia. lia.
  - rewrite Pos2Z.inj_succ, IH.
    change (Z.pos p~0) with (2 * Z.pos p).
    rewrite Z.log2_double by lia. lia.
Qed.

Lemma pow2_le_scaled (X a b K : Z) :
  0 < b -> 0 <= K -> 0 <= X + K ->
  pow2_le X a b = (b * 2 ^ (X + K) <=? a * 2 ^ K).
Proof.
  intros Hb HK HXK. unfold pow2_le.
  destruct (Z.leb_spec 0 X) as [HX | HX].
  - rewrite Z.pow_add_r by lia.
    assert (0 < 2 ^ K) by (apply Z.pow_pos_nonneg; lia).
    destruct (Z.leb_spec (b * 2 ^ X) a);
      destruct (Z.leb_spec (b * (2 ^ X * 2 ^ K)) (a * 2 ^ K));
      try reflexivity; nia.
  - replace K with ((X + K) + (- X)) at 2 by lia.
    rewrite (Z.pow_add_r 2 (X + K) (- X)) by lia.
    assert (0 < 2 ^ (X + K)) by (apply Z.pow_pos_nonneg; lia).
    destruct (Z.leb_spec b (a * 2 ^ (- X)));
      destruct (Z.leb_spec (b * 2 ^ (X + K)) (a * (2 ^ (X + K) * 2 ^ (- X))));
      try reflexivity; nia.
Qed.

Lemma bounded_inv (m : positive) (e : Z) :
  bounded prec emax m e = true ->
  fexp prec emax (Z.log2 (Zpos m) + 1 + e) = e /\ e <= emax - prec /\ Zpos m < 2 ^ prec.
Proof.
  unfold bounded, canonical_mantissa. intros H.
  apply andb_true_iff in H. destruct H as [Hc He].
  apply Z.eqb_eq in Hc. apply Z.leb_le in He.
  rewrite digits2_pos_log2 in Hc.
  split; [exact Hc | split; [exact He |]].
  assert (Hl : Z.log2 (Z.pos m) + 1 <= prec).
  { revert Hc. unfold fexp, SpecFloat.emin, prec, emax. lia. }
  apply Z.log2_lt_pow2; [lia | unfold prec in *; lia].
Qed.

Lemma ilog2_ratio_exact (a b : Z) (m : positive) (e : Z) :
  0 < a -> 0 < b ->
  a * 2 ^ (Z.max 0 (- e)) = Zpos m * 2 ^ (Z.max 0 e) * b ->
  ilog2_ratio a b = Z.log2 (Zpos m) + e.
Proof.
  intros Ha Hb H.
  set (P := Z.max 0 (- e)) in *. set (R := Z.max 0 e) in *.
  set (L := Z.log2 (Z.pos m)).
  assert (HP : 0 <= P) by lia. assert (HR : 0 <= R) by lia.
  assert (He : e = R - P) by lia.
  assert (HL : 0 <= L) by apply Z.log2_nonneg.
  assert (HA : Z.log2 (a * 2 ^ P) = P + Z.log2 a) by (apply Z.log2_mul_pow2; lia).
  assert (HB : Z.log2 (b * 2 ^ R) = R + Z.log2 b) by (apply Z.log2_mul_pow2; lia).
  assert (H2R : 0 < 2 ^ R) by (apply Z.pow_pos_nonneg; lia).
  assert (HmB : a * 2 ^ P = Z.pos m * (b * 2 ^ R)) by (rewrite H; ring).
  assert (Hlo : L + Z.log2 (b * 2 ^ R) <= Z.log2 (a * 2 ^ P)).
  { rewrite HmB. apply Z.log2_mul_below; lia. }
  assert (Hhi : Z.log2 (a * 2 ^ P) <= L + Z.log2 (b * 2 ^ R) + 1).
  { rewrite HmB. apply Z.log2_mul_above; lia. }
  destruct (Z.log2_spec (Z.pos m)) as [Hm1 Hm2]; [lia |]. fold L in Hm1, Hm2.
  unfold ilog2_ratio. set (E0 := Z.log2 a - Z.log2 b).
  assert (HE0 : E0 = L + e \/ E0 = L + e + 1) by lia.
  rewrite (pow2_le_scaled E0 a b P) by lia.
  rewrite H.
  destruct HE0 as [HE0 | HE0]; rewrite HE0.
  - replace (L + e + P) with (L + R) by lia.
    rewrite Z.pow_add_r by lia.
    destruct (Z.leb_spec (b * (2 ^ L * 2 ^ R)) (Z.pos m * 2 ^ R * b)); [reflexivity | nia].
  - replace (L + e + 1 + P) with (Z.succ L + R) by lia.
    rewrite Z.pow_add_r by lia.
    destruct (Z.leb_spec (b * (2 ^ Z.succ L * 2 ^ R)) (Z.pos m * 2 ^ R * b)); [nia | lia].
Qed.

Lemma round_nearest_even_exact (q b : Z) :
  0 < b -> round_nearest_even (q * b) b = q.
Proof.
  intros Hb. unfold round_nearest_even.
  rewrite Z.mod_mul by lia. rewrite Z.div_mul by lia.
  change (2 * 0) with 0. destruct (Z.compare_spec 0 b); [lia | reflexivity | lia].
Qed.

Lemma round_ratio_exact (sign : bool) (a b : Z) (m : positive) (e : Z) :
  0 < a -> 0 < b -> bounded prec emax m e = true ->
  a * 2 ^ (Z.max 0 (- e)) = Zpos m * 2 ^ (Z.max 0 e) * b ->
  round_ratio sign a b = S754_finite sign m e.
Proof.
  intros Ha Hb Hbd H.
  destruct (bounded_inv m e Hbd) as (Hf & He & Hm).
  unfold round_ratio.
  rewrite (ilog2_ratio_exact a b m e Ha Hb H).
  replace (Z.log2 (Z.pos m) + e + 1) with (Z.log2 (Z.pos m) + 1 + e) by lia.
  rewrite Hf.
  assert (Hr : (if 0 <=? e then round_nearest_even a (b * 2 ^ e)
                else round_nearest_even (a * 2 ^ (- e)) b) = Zpos m).
  { destruct (Z.leb_spec 0 e) as [H0 | H0].
    - rewrite Z.max_l in H by lia. rewrite Z.max_r in H by lia.
      change (2 ^ 0) with 1 in H. rewrite Z.mul_1_r in H. rewrite H.
      replace (Z.pos m * 2 ^ e * b) with (Z.pos m * (b * 2 ^ e)) by ring.
      apply round_nearest_even_exact.
      assert (0 < 2 ^ e) by (apply Z.pow_pos_nonneg; lia). nia.
    - rewrite Z.max_r in H by lia. rewrite Z.max_l in H by lia.
      change (2 ^ 0) with 1 in H. rewrite Z.mul_1_r in H. rewrite H.
      apply round_nearest_even_exact. lia. }
  rewrite Hr.
  destruct (Z.eqb_spec (Z.pos m) (2 ^ prec)) as [Heq | Hne]; [lia |].
  destruct (Z.leb_spec e (emax - prec)); [reflexivity | lia].
Qed.

(** ** Rounding: the result is a binary64 value *)

(** [ilog2_ratio a b] is the binade of [a / b]. *)
Lemma ilog2_ratio_spec (a b : Z) :
  0 < a -> 0 < b ->
  pow2_le (ilog2_ratio a b) a b = true
  /\ pow2_le (ilog2_ratio a b + 1) a b = false.
Proof.
  intros Ha Hb.
  destruct (Z.log2_spec a Ha) as [Ha1 Ha2]. destruct (Z.log2_spec b Hb) as [Hb1 Hb2].
  pose proof (Z.log2_nonneg a) as Hla. pose proof (Z.log2_nonneg b) as Hlb.
  set (la := Z.log2 a) in *. set (lb := Z.log2 b) in *.
  assert (Hup : pow2_le (la - lb + 1) a b = false).
  { rewrite (pow2_le_scaled _ a b lb) by lia.
    replace (la - lb + 1 + lb) with (Z.succ la) by lia.
    apply Z.leb_gt.
    assert (0 < 2 ^ lb) by (apply Z.pow_pos_nonneg; lia). nia. }
  assert (Hdn : pow2_le (la - lb - 1) a b = true).
  { rewrite (pow2_le_scaled _ a b (Z.succ lb)) by lia.
    replace (la - lb - 1 + Z.succ lb) with la by lia.
    apply Z.leb_le.
    assert (0 < 2 ^ la) by (apply Z.pow_pos_nonneg; lia). nia. }
  unfold ilog2_ratio. fold la lb.
  destruct (pow2_le (la - lb) a b) eqn:E.
  - split; [exact E | exact Hup].
  - split; [exact Hdn |]. replace (la - lb - 1 + 1) with (la - lb) by lia. exact E.
Qed.

Lemma round_nearest_even_bounds (a b : Z) :
  0 <= a -> 0 < b -> a / b <= round_nearest_even a b <= a / b + 1.
Proof.
  intros Ha Hb. unfold round_nearest_even.
  destruct (2 * (a mod b) ?= b); [destruct (Z.even (a / b)) | |]; lia.
Qed.

(** The quotient that [round_ratio] rounds lies below [2^53], and in a
    normal binade it is at least [2^52]. *)
Lemma scaled_quotient_bounds (a b e : Z) :
  0 < a -> 0 < b ->
  let E := ilog2_ratio a b in
  E - 52 <= e ->
  let q := if 0 <=? e then a / (b * 2 ^ e) else (a * 2 ^ (- e)) / b in
  0 <= q < 2 ^ 53 /\ (e = E - 52 -> 2 ^ 52 <= q).
Proof.
  intros Ha Hb E He q.
  destruct (ilog2_ratio_spec a b Ha Hb) as [Hlo Hhi]. fold E in Hlo, Hhi.
  set (K := Z.max 0 (- e) + Z.max 0 (- E) + 1).
  assert (HK : 0 <= K) by lia.
  rewrite (pow2_le_scaled E a b K) in Hlo by lia. apply Z.leb_le in Hlo.
  rewrite (pow2_le_scaled (E + 1) a b K) in Hhi by lia. apply Z.leb_gt in Hhi.
  assert (H2K : 0 < 2 ^ K) by (apply Z.pow_pos_nonneg; lia).
  set (num := if 0 <=? e then a else a * 2 ^ (- e)).
  set (den := if 0 <=? e then b * 2 ^ e else b).
  assert (Hq : q = num / den) by (unfold q, num, den; destruct (0 <=? e); reflexivity).
  assert (Hden : 0 < den).
  { unfold den. destruct (Z.leb_spec 0 e); [| lia].
    assert (0 < 2 ^ e) by (apply Z.pow_pos_nonneg; lia). nia. }
  assert (Hnum : 0 <= num).
  { unfold num. destruct (Z.leb_spec 0 e); [lia |].
    assert (0 < 2 ^ (- e)) by (apply Z.pow_pos_nonneg; lia). nia. }
  assert (Hscale : a * 2 ^ K * den = num * (b * 2 ^ (K + e))).
  { unfold num, den. destruct (Z.leb_spec 0 e).
    - rewrite Z.pow_add_r by lia. ring.
    - replace K with ((K + e) + (- e)) at 1 by lia.
      rewrite (Z.pow_add_r 2 (K + e) (- e)) by lia. ring. }
  assert (HKe : 0 < 2 ^ (K + e)) by (apply Z.pow_pos_nonneg; lia).
  assert (Hupper : num < den * 2 ^ 53).
  { assert (H1 : 2 ^ (E + 1 + K) <= 2 ^ (K + e) * 2 ^ 53).
    { rewrite <- Z.pow_add_r by lia. apply Z.pow_le_mono_r; lia. }
    assert (H2 : a * 2 ^ K < b * (2 ^ (K + e) * 2 ^ 53)) by nia.
    assert (H3 : a * 2 ^ K * den < b * (2 ^ (K + e) * 2 ^ 53) * den) by nia.
    rewrite Hscale in H3. nia. }
  split.
  - rewrite Hq. split; [apply Z.div_pos; lia |].
    apply Z.div_lt_upper_bound; lia.
  - intros Heq. rewrite Hq. apply Z.div_le_lower_bound; [lia |].
    assert (H1 : 2 ^ (E + K) = 2 ^ (K + e) * 2 ^ 52).
    { rewrite <- Z.pow_add_r by lia. f_equal. lia. }
    rewrite H1 in Hlo.
    assert (H3 : b * (2 ^ (K + e) * 2 ^ 52) * den <= a * 2 ^ K * den) by nia.
    rewrite Hscale in H3. nia.
Qed.

(** [round_ratio] returns a binary64 value. *)
Lemma round_ratio_double (sign : bool) (a b : Z) :
  0 < a -> 0 < b -> is_double (round_ratio sign a b) = true.
Proof.
  intros Ha Hb. unfold round_ratio.
  set (E := ilog2_ratio a b).
  set (e := fexp prec emax (E + 1)).
  assert (He : E - 52 <= e /\ -1074 <= e /\ (e = E - 52 \/ e = -1074)).
  { unfold e, fexp, SpecFloat.emin, prec, emax. lia. }
  destruct He as (He1 & He2 & He3).
  destruct (scaled_quotient_bounds a b e Ha Hb He1) as [Hq Hn]. fold E in Hn.
  set (m := if 0 <=? e then round_nearest_even a (b * 2 ^ e)
            else round_nearest_even (a * 2 ^ (- e)) b).
  assert (Hm : 0 <= m <= 2 ^ 53 /\ (e = E - 52 -> 2 ^ 52 <= m)).
  { unfold m. destruct (Z.leb_spec 0 e) as [H0 | H0].
    - assert (0 < 2 ^ e) by (apply Z.pow_pos_nonneg; lia).
      pose proof (round_nearest_even_bounds a (b * 2 ^ e)) as Hr.
      assert (0 < b * 2 ^ e) by nia. lia.
    - assert (0 < 2 ^ (- e)) by (apply Z.pow_pos_nonneg; lia).
      pose proof (round_nearest_even_bounds (a * 2 ^ (- e)) b) as Hr.
      assert (0 <= a * 2 ^ (- e)) by nia. lia. }
  destruct Hm as [Hm1 Hm2].
  assert (Hcanon : forall (p : positive) (x : Z),
             2 ^ 52 <= Zpos p < 2 ^ 53 -> -1074 <= x ->
             canonical_mantissa prec emax p x = true).
  { intros p x Hp Hx. unfold canonical_mantissa. rewrite digits2_pos_log2.
    assert (Z.log2 (Z.pos p) = 52).
    { apply Z.log2_unique; [lia |]. exact Hp. }
    apply Z.eqb_eq. unfold fexp, SpecFloat.emin, prec, emax. lia. }
  unfold prec at 1. destruct (Z.eqb_spec m (2 ^ 53)) as [Hmax | Hmax].
  - change (2 ^ (prec - 1)) with (Zpos 4503599627370496).
    destruct (Z.leb_spec (e + 1) (emax - prec)) as [Hle | Hgt]; [| reflexivity].
    unfold is_double. cbn [valid_binary]. unfold bounded.
    rewrite Hcanon by lia. now apply Z.leb_le.
  - destruct m as [| p | p]; try reflexivity.
    destruct (Z.leb_spec e (emax - prec)) as [Hle | Hgt]; [| reflexivity].
    unfold is_double. cbn [valid_binary]. unfold bounded.
    apply andb_true_iff. split; [| now apply Z.leb_le].
    destruct He3 as [Hn' | Hs].
    + apply Hcanon; [| lia]. specialize (Hm2 Hn'). lia.
    + unfold canonical_mantissa. rewrite digits2_pos_log2.
      assert (Z.log2 (Z.pos p) < 53) by (apply Z.log2_lt_pow2; lia).
      apply Z.eqb_eq. unfold fexp, SpecFloat.emin, prec, emax. lia.
Qed.

Lemma of_decimal_double (neg : bool) (M E : Z) :
  0 <= M -> is_double (of_decimal neg M E) = true.
Proof.
  intros HM. unfold of_decimal.
  destruct (Z.eqb_spec M 0); [reflexivity |].
  destruct (Z.leb_spec 0 E).
  - apply round_ratio_double; [| lia].
    assert (0 < 10 ^ E) by (apply Z.pow_pos_nonneg; lia). nia.
  - apply round_ratio_double; [lia | apply Z.pow_pos_nonneg; lia].
Qed.

(** ** Reading back decimal digits *)

Lemma append_empty_r (s : string) : s ++ "" = s.
Proof. induction s as [| c s IH]; simpl; [reflexivity | now rewrite IH]. Qed.

Lemma append_assoc (s1 s2 s3 : string) : (s1 ++ s2) ++ s3 = s1 ++ (s2 ++ s3).
Proof. induction s1 as [| c s1 IH]; simpl; [reflexivity | now rewrite IH]. Qed.

Lemma digit_char_ok (d : Z) :
  0 <= d <= 9 -> is_digit (digit_char d) = true /\ digit_val (digit_char d) = d.
Proof.
  intros H.
  assert (Hd : d = 0 \/ d = 1 \/ d = 2 \/ d = 3 \/ d = 4 \/ d = 5 \/ d = 6
               \/ d = 7 \/ d = 8 \/ d = 9) by lia.
  repeat (destruct Hd as [Hd | Hd]; [subst d; split; reflexivity |]).
  subst d; split; reflexivity.
Qed.

Lemma is_digit_other (c : ascii) :
  is_digit c = true ->
  is_whitespace c = false /\ Ascii.eqb c "-" = false /\ Ascii.eqb c "+" = false
  /\ Ascii.eqb c "I" = false.
Proof.
  destruct c as [[] [] [] [] [] [] [] []]; vm_compute; intros H;
    try discriminate H; repeat split.
Qed.

Lemma read_digits_digits (k : nat) :
  forall s acc cnt rest, 0 <= s < 10 ^ Z.of_nat k ->
    read_digits acc cnt (digits k s ++ rest)
    = read_digits (acc * 10 ^ Z.of_nat k + s) (cnt + Z.of_nat k) rest.
Proof.
  induction k as [| k IH]; intros s acc cnt rest Hs.
  - simpl in *. f_equal; [f_equal |]; lia.
  - rewrite Nat2Z.inj_succ in *. rewrite Z.pow_succ_r in Hs by lia.
    cbn [digits]. rewrite append_assoc. cbn [append].
    rewrite IH by (split; [apply Z.div_pos; lia | apply Z.div_lt_upper_bound; lia]).
    destruct (digit_char_ok (s mod 10)) as [Hd Hv].
    { pose proof (Z.mod_pos_bound s 10). lia. }
    cbn [read_digits]. rewrite Hd, Hv.
    f_equal; [| lia].
    rewrite Z.pow_succ_r by lia.
    pose proof (Z.div_mod s 10). lia.
Qed.

Lemma read_digits_zeros (j : nat) :
  forall acc cnt rest,
    read_digits acc cnt (zeros j ++ rest)
    = read_digits (acc * 10 ^ Z.of_nat j) (cnt + Z.of_nat j) rest.
Proof.
  induction j as [| j IH]; intros acc cnt rest.
  - simpl. f_equal; lia.
  - rewrite Nat2Z.inj_succ. cbn [zeros append read_digits].
    change (is_digit "0") with true. cbv iota.
    rewrite IH. change (digit_val "0") with 0.
    rewrite Z.pow_succ_r by lia. f_equal; lia.
Qed.

Lemma digits_head (k : nat) :
  forall s rest, exists c r,
    digits (S k) s ++ rest = String c r /\ is_digit c = true.
Proof.
  induction k as [| k IH]; intros s rest.
  - exists (digit_char (s mod 10)), rest. split; [reflexivity |].
    apply digit_char_ok. pose proof (Z.mod_pos_bound s 10). lia.
  - change (digits (S (S k)) s) with
      (digits (S k) (s / 10) ++ String (digit_char (s mod 10)) "").
    rewrite append_assoc. apply IH.
Qed.

Lemma ndigits_from_bound (fuel : nat) :
  forall z, 0 <= z < 10 ^ Z.of_nat fuel ->
    z < 10 ^ Z.of_nat (ndigits_from fuel z).
Proof.
  induction fuel as [| f IH]; intros z Hz.
  - simpl in *. lia.
  - cbn [ndigits_from]. destruct (Z.ltb_spec z 10) as [H | H].
    + simpl. lia.
    + rewrite Nat2Z.inj_succ in *. rewrite Z.pow_succ_r in * by lia.
      assert (z / 10 < 10 ^ Z.of_nat (ndigits_from f (z / 10))).
      { apply IH. split; [apply Z.div_pos; lia | apply Z.div_lt_upper_bound; lia]. }
      pose proof (Z.div_mod z 10). pose proof (Z.mod_pos_bound z 10). lia.
Qed.

Lemma ndigits_bound (z : Z) : 0 <= z -> z < 10 ^ Z.of_nat (ndigits z).
Proof.
  intros Hz. unfold ndigits. apply ndigits_from_bound. split; [lia |].
  destruct (Z.eq_dec z 0) as [-> | Hnz].
  - simpl. lia.
  - destruct (Z.log2_spec z) as [_ Hlt]; [lia |].
    rewrite Nat2Z.inj_add, Z2Nat.id by apply Z.log2_nonneg.
    change (Z.of_nat 1) with 1.
    eapply Z.lt_le_trans; [exact Hlt |].
    apply Z.pow_le_mono_l. pose proof (Z.log2_nonneg z). lia.
Qed.

Lemma ndigits_pos (z : Z) : (1 <= ndigits z)%nat.
Proof.
  unfold ndigits. rewrite Nat.add_1_r. cbn [ndigits_from].
  destruct (z <? 10); lia.
Qed.

Lemma prefix_Infinity_digit (c : ascii) (r : string) :
  is_digit c = true -> prefix "Infinity" (String c r) = false.
Proof.
  intros H. destruct (is_digit_other c H) as (_ & _ & _ & HI).
  cbn [prefix]. destruct (ascii_dec "I" c) as [<- | _]; [discriminate HI | reflexivity].
Qed.

Lemma read_digits_stop (acc cnt : Z) (c : ascii) (r : string) :
  is_digit c = false -> read_digits acc cnt (String c r) = (acc, cnt, String c r).
Proof. intros H. cbn [read_digits]. now rewrite H. Qed.

Lemma read_digits_end (acc cnt : Z) : read_digits acc cnt "" = (acc, cnt, "").
Proof. reflexivity. Qed.

Lemma stops_empty : stops "".
Proof. intros acc cnt. reflexivity. Qed.

Lemma stops_exponent (e : Z) : stops (exponent_text e).
Proof. intros acc cnt. reflexivity. Qed.

Create HintDb reading.
#[export] Hint Resolve stops_empty stops_exponent : reading.

(** The exponent part written by [format_decimal] is read back. *)
Lemma read_exponent_written (e : Z) : read_exponent (exponent_text e) = e.
Proof.
  unfold exponent_text.
  assert (Hr : read_digits 0 0 (Z_to_decimal (Z.abs e))
               = (Z.abs e, Z.of_nat (ndigits (Z.abs e)), "")).
  { unfold Z_to_decimal.
    rewrite <- (append_empty_r (digits _ _)).
    rewrite read_digits_digits by (split; [lia | apply ndigits_bound; lia]).
    rewrite read_digits_end, Z.mul_0_l, !Z.add_0_l. reflexivity. }
  pose proof (ndigits_pos (Z.abs e)) as Hp.
  destruct (Z.ltb_spec e 0) as [He | He];
    cbn [append read_exponent Ascii.eqb Bool.eqb orb read_sign];
    rewrite Hr;
    (destruct (Z.eqb_spec (Z.of_nat (ndigits (Z.abs e))) 0); [lia | lia]).
Qed.

(** What [parse_unsigned] reads in each of the texts that
    [format_decimal] writes, under either sign. *)
Section Reading.

Variable neg : bool.

Lemma of_decimal_scale (s j : Z) :
  0 < s -> 0 <= j -> of_decimal neg (s * 10 ^ j) 0 = of_decimal neg s j.
Proof.
  intros Hs Hj. unfold of_decimal.
  assert (0 < 10 ^ j) by (apply Z.pow_pos_nonneg; lia).
  destruct (Z.eqb_spec (s * 10 ^ j) 0); [nia |].
  destruct (Z.eqb_spec s 0); [lia |].
  change (0 <=? 0) with true. cbv iota.
  destruct (Z.leb_spec 0 j); [| lia].
  now rewrite Z.pow_0_r, Z.mul_1_r.
Qed.

(** Digits followed by zeros: an integer. *)
Lemma parse_integer_text (k j : nat) (s : Z) :
  (1 <= k)%nat -> 0 < s < 10 ^ Z.of_nat k ->
  parse_unsigned neg (digits k s ++ zeros j) = of_decimal neg s (Z.of_nat j).
Proof.
  intros Hk Hs. destruct k as [| k']; [lia |].
  unfold parse_unsigned.
  destruct (digits_head k' s (zeros j)) as (c & r & Heq & Hc).
  rewrite Heq, (prefix_Infinity_digit c r Hc), <- Heq.
  rewrite read_digits_digits by lia.
  rewrite <- (append_empty_r (zeros _)), read_digits_zeros, read_digits_end.
  destruct (Z.eqb_spec (0 + Z.of_nat (S k') + Z.of_nat j + 0) 0); [lia |].
  cbn [read_exponent]. rewrite Z.mul_0_l, Z.add_0_l, Z.sub_0_r.
  apply of_decimal_scale; lia.
Qed.

(** Digits with no fraction, then text that is no digit and no point. *)
Lemma parse_digits_text (k : nat) (s : Z) (tail : string) :
  (1 <= k)%nat -> 0 <= s < 10 ^ Z.of_nat k -> stops tail ->
  (forall r, tail <> String "." r) ->
  parse_unsigned neg (digits k s ++ tail) = of_decimal neg s (read_exponent tail).
Proof.
  intros Hk Hs Ht Hp. destruct k as [| k']; [lia |].
  unfold parse_unsigned.
  destruct (digits_head k' s tail) as (c & r & Heq & Hc).
  rewrite Heq, (prefix_Infinity_digit c r Hc), <- Heq.
  rewrite read_digits_digits by lia. rewrite Ht.
  set (a1 := 0 * 10 ^ Z.of_nat (S k') + s).
  assert (Hm : match tail with
               | String c0 r0 =>
                   if Ascii.eqb c0 "." then read_digits a1 0 r0 else (a1, 0, tail)
               | EmptyString => (a1, 0, tail)
               end = (s, 0, tail)).
  { assert (Ha : a1 = s) by (unfold a1; lia). rewrite Ha.
    destruct tail as [| c0 r0]; [reflexivity |].
    destruct (Ascii.eqb_spec c0 "."); [subst c0; now destruct (Hp r0) |].
    reflexivity. }
  rewrite Hm.
  destruct (Z.eqb_spec (0 + Z.of_nat (S k') + 0) 0); [lia |].
  now rewrite Z.sub_0_r.
Qed.

(** Digits, a point, digits, then text that is no digit. *)
Lemma parse_fraction_text (n f : nat) (hi lo : Z) (tail : string) :
  (1 <= n)%nat -> 0 <= hi < 10 ^ Z.of_nat n -> 0 <= lo < 10 ^ Z.of_nat f ->
  stops tail ->
  parse_unsigned neg (digits n hi ++ "." ++ digits f lo ++ tail)
  = of_decimal neg (hi * 10 ^ Z.of_nat f + lo) (read_exponent tail - Z.of_nat f).
Proof.
  intros Hn Hhi Hlo Ht. destruct n as [| n']; [lia |].
  unfold parse_unsigned.
  destruct (digits_head n' hi ("." ++ digits f lo ++ tail)) as (c & r & Heq & Hc).
  rewrite Heq, (prefix_Infinity_digit c r Hc), <- Heq.
  rewrite read_digits_digits by lia.
  cbn [append]. rewrite read_digits_stop by reflexivity.
  change (Ascii.eqb "." ".") with true. cbv iota.
  rewrite read_digits_digits by lia. rewrite Ht.
  destruct (Z.eqb_spec (0 + Z.of_nat (S n') + (0 + Z.of_nat f)) 0); [lia |].
  f_equal; lia.
Qed.

(** [0.], zeros and digits: a value below one. *)
Lemma parse_small_text (j k : nat) (s : Z) :
  0 <= s < 10 ^ Z.of_nat k ->
  parse_unsigned neg ("0." ++ zeros j ++ digits k s)
  = of_decimal neg s (- (Z.of_nat j + Z.of_nat k)).
Proof.
  intros Hs. unfold parse_unsigned.
  cbn [append prefix]. destruct (ascii_dec "I" "0") as [E | _]; [discriminate E |].
  cbn [read_digits]. change (is_digit "0") with true. change (is_digit ".") with false.
  cbv iota. change (Ascii.eqb "." ".") with true. cbv iota.
  rewrite read_digits_zeros.
  rewrite <- (append_empty_r (digits k s)), read_digits_digits by lia.
  rewrite read_digits_end.
  destruct (Z.eqb_spec (0 + 1 + (0 + Z.of_nat j + Z.of_nat k)) 0); [lia |].
  cbn [read_exponent]. f_equal; lia.
Qed.

Lemma parse_unsigned_format (k : nat) (n s : Z) :
  (1 <= k)%nat -> 0 < s < 10 ^ Z.of_nat k ->
  parse_unsigned neg (format_decimal k n s) = of_decimal neg s (n - Z.of_nat k).
Proof.
  intros Hk Hs. unfold format_decimal.
  set (kz := Z.of_nat k) in *.
  assert (Hkz : 1 <= kz) by (unfold kz; lia).
  assert (Hsplit : forall f, 0 <= f <= kz ->
            0 <= s / 10 ^ f < 10 ^ (kz - f) /\ 0 <= s mod 10 ^ f < 10 ^ f
            /\ s / 10 ^ f * 10 ^ f + s mod 10 ^ f = s).
  { intros f Hf. assert (H10 : 0 < 10 ^ f) by (apply Z.pow_pos_nonneg; lia).
    split; [split; [apply Z.div_pos; lia |] |
            split; [apply Z.mod_pos_bound; lia
                   | pose proof (Z.div_mod s (10 ^ f)); lia]].
    apply Z.div_lt_upper_bound; [lia |].
    rewrite <- Z.pow_add_r by lia. replace (f + (kz - f)) with kz by lia. lia. }
  assert (Hexp : forall n, parse_unsigned neg
            (if (k =? 1)%nat then digits 1 s ++ exponent_text (n - 1)
             else digits 1 (s / 10 ^ (kz - 1)) ++ "."
                    ++ digits (k - 1) (s mod 10 ^ (kz - 1)) ++ exponent_text (n - 1))
            = of_decimal neg s (n - kz)).
  { intros n'. destruct (Nat.eqb_spec k 1) as [K1 | K1].
    - rewrite parse_digits_text;
        [| lia | subst k; exact (conj (Z.lt_le_incl _ _ (proj1 Hs)) (proj2 Hs))
         | auto with reading
         | intros r; unfold exponent_text; cbn [append]; discriminate].
      rewrite read_exponent_written. f_equal. lia.
    - destruct (Hsplit (kz - 1)) as (Hhi & Hlo & Hsum); [lia |].
      replace (kz - (kz - 1)) with 1 in Hhi by lia.
      assert (Hk1 : Z.of_nat (k - 1) = kz - 1) by lia.
      rewrite parse_fraction_text;
        [| lia | exact Hhi | rewrite Hk1; exact Hlo | auto with reading].
      rewrite Hk1, Hsum, read_exponent_written. f_equal. lia. }
  destruct (Z.leb_spec kz n) as [A | A]; destruct (Z.leb_spec n 21) as [B | B];
    destruct (Z.ltb_spec 0 n) as [C | C]; try lia; cbn [andb].
  - (* k <= n <= 21 *)
    rewrite parse_integer_text by (fold kz; lia).
    f_equal. lia.
  - (* 21 < n *)
    destruct (Z.ltb_spec (-6) n); [| lia]. destruct (Z.leb_spec n 0); [lia |].
    cbn [andb]. apply Hexp.
  - (* 0 < n < k *)
    destruct (Hsplit (kz - n)) as (Hhi & Hlo & Hsum); [lia |].
    replace (kz - (kz - n)) with n in Hhi by lia.
    rewrite <- (append_empty_r (digits (Z.to_nat (kz - n)) _)).
    rewrite parse_fraction_text;
      [| lia | rewrite Z2Nat.id by lia; exact Hhi
       | rewrite Z2Nat.id by lia; exact Hlo | auto with reading].
    rewrite Z2Nat.id by lia. rewrite Hsum. cbn [read_exponent]. f_equal. lia.
  - (* n <= 0 *)
    destruct (Z.leb_spec n 0); [| lia].
    destruct (Z.ltb_spec (-6) n); cbn [andb].
    + rewrite parse_small_text by (fold kz; lia). f_equal. lia.
    + apply Hexp.
  - (* 21 < n < k *)
    destruct (Z.ltb_spec (-6) n); [| lia]. destruct (Z.leb_spec n 0); [lia |].
    cbn [andb]. apply Hexp.
Qed.

End Reading.

(** ** [parseFloat] after [Number::toString] *)

Lemma same_eq (x y : number) : same x y = true -> x = y.
Proof.
  destruct x as [s1 | s1 | | s1 m1 e1], y as [s2 | s2 | | s2 m2 e2];
    cbn [same]; intros H; try discriminate H; try reflexivity.
  - apply Bool.eqb_prop in H. now subst.
  - apply Bool.eqb_prop in H. now subst.
  - apply andb_true_iff in H. destruct H as [H He].
    apply andb_true_iff in H. destruct H as [Hs Hm].
    apply Bool.eqb_prop in Hs. apply Pos.eqb_eq in Hm. apply Z.eqb_eq in He.
    now subst.
Qed.

Lemma same_refl (x : number) : same x x = true.
Proof.
  destruct x as [s | s | | s m e]; cbn [same]; try reflexivity;
    rewrite ?Bool.eqb_reflx, ?Pos.eqb_refl, ?Z.eqb_refl; reflexivity.
Qed.

Lemma shortest_from_sound (fuel : nat) :
  forall k x n0 a b k' n s,
    shortest_from fuel k x n0 a b = Some (k', n, s) ->
    (1 <= k')%nat /\ 0 < s < 10 ^ Z.of_nat k'
    /\ of_decimal false s (n - Z.of_nat k') = x.
Proof.
  induction fuel as [| f IH]; intros k x n0 a b k' n s H; [discriminate H |].
  cbn [shortest_from] in H.
  destruct (find (denotes x k) (candidates k n0 a b)) as [[n1 s1] |] eqn:F.
  - injection H as -> -> ->.
    apply find_some in F. destruct F as [_ F]. unfold denotes in F.
    apply andb_true_iff in F. destruct F as [F Hx].
    apply andb_true_iff in F. destruct F as [F Hhi].
    apply andb_true_iff in F. destruct F as [Hk Hlo].
    apply Z.leb_le in Hk, Hlo. apply Z.ltb_lt in Hhi. apply same_eq in Hx.
    assert (0 < 10 ^ (Z.of_nat k' - 1)) by (apply Z.pow_pos_nonneg; lia).
    repeat split; try lia. exact Hx.
  - eapply IH. exact H.
Qed.

Lemma exact_digits_sound (m : positive) (e : Z) :
  bounded prec emax m e = true ->
  forall k n s, exact_digits m e = (k, n, s) ->
    (1 <= k)%nat /\ 0 < s < 10 ^ Z.of_nat k
    /\ of_decimal false s (n - Z.of_nat k) = S754_finite false m e.
Proof.
  intros Hb k n s0 H. unfold exact_digits in H.
  set (s := if 0 <=? e then Z.pos m * 2 ^ e else Z.pos m * 5 ^ (- e)) in H.
  cbv zeta in H. injection H as <- <- <-.
  assert (Hs : 0 < s).
  { unfold s. destruct (Z.leb_spec 0 e).
    - assert (0 < 2 ^ e) by (apply Z.pow_pos_nonneg; lia). nia.
    - assert (0 < 5 ^ (- e)) by (apply Z.pow_pos_nonneg; lia). nia. }
  split; [apply ndigits_pos |]. split; [split; [exact Hs | apply ndigits_bound; lia] |].
  replace (Z.of_nat (ndigits s) + (if 0 <=? e then 0 else e) - Z.of_nat (ndigits s))
    with (if 0 <=? e then 0 else e) by lia.
  unfold of_decimal. destruct (Z.eqb_spec s 0); [lia |].
  unfold s. destruct (Z.leb_spec 0 e) as [He | He].
  - change (0 <=? 0) with true. cbv iota.
    assert (0 < 2 ^ e) by (apply Z.pow_pos_nonneg; lia).
    apply round_ratio_exact; [nia | lia | exact Hb |].
    rewrite Z.max_l by lia. rewrite Z.max_r by lia. ring.
  - destruct (Z.leb_spec 0 e); [lia |].
    assert (0 < 5 ^ (- e)) by (apply Z.pow_pos_nonneg; lia).
    assert (0 < 10 ^ (- e)) by (apply Z.pow_pos_nonneg; lia).
    apply round_ratio_exact; [nia | lia | exact Hb |].
    rewrite Z.max_r by lia. rewrite Z.max_l by lia.
    change 10 with (5 * 2). rewrite Z.pow_mul_l. ring.
Qed.

Lemma decimal_digits_sound (m : positive) (e : Z) :
  bounded prec emax m e = true ->
  forall k n s, decimal_digits m e = (k, n, s) ->
    (1 <= k)%nat /\ 0 < s < 10 ^ Z.of_nat k
    /\ of_decimal false s (n - Z.of_nat k) = S754_finite false m e.
Proof.
  intros Hb k n s H. unfold decimal_digits in H.
  destruct (ratio_of m e) as [a b].
  destruct (shortest_from 17 1 (S754_finite false m e) (decimal_exponent a b) a b)
    as [t |] eqn:Sh.
  - subst t. eapply shortest_from_sound. exact Sh.
  - now apply exact_digits_sound.
Qed.

Lemma round_ratio_sign (neg : bool) (a b : Z) (m : positive) (e : Z) :
  round_ratio false a b = S754_finite false m e ->
  round_ratio neg a b = S754_finite neg m e.
Proof.
  unfold round_ratio.
  destruct (if _ =? _ then _ else _) as [m' e'].
  destruct m' as [| p | p]; try discriminate.
  destruct (e' <=? emax - prec); [| discriminate].
  intros H. injection H as -> ->. reflexivity.
Qed.

Lemma of_decimal_sign (neg : bool) (M E : Z) (m : positive) (e : Z) :
  of_decimal false M E = S754_finite false m e ->
  of_decimal neg M E = S754_finite neg m e.
Proof.
  unfold of_decimal. destruct (M =? 0); [discriminate |].
  destruct (0 <=? E); apply round_ratio_sign.
Qed.

Lemma format_decimal_head (k : nat) (n s : Z) :
  (1 <= k)%nat ->
  exists c r, format_decimal k n s = String c r /\ is_digit c = true.
Proof.
  intros Hk. unfold format_decimal.
  destruct k as [| k']; [lia |].
  destruct (_ && _); [apply digits_head |].
  destruct (Z.ltb_spec 0 n) as [C | C]; cbn [andb].
  - destruct (n <=? 21).
    + destruct (Z.to_nat n) as [| n'] eqn:En; [lia |]. apply digits_head.
    + destruct (_ && _); [eexists; eexists; split; reflexivity |].
      destruct (_ =? _)%nat; apply (digits_head 0).
  - destruct (_ && _); [eexists; eexists; split; reflexivity |].
    destruct (_ =? _)%nat; apply (digits_head 0).
Qed.

Lemma parseFloat_digit (c : ascii) (r : string) :
  is_digit c = true -> parseFloat (String c r) = parse_unsigned false (String c r).
Proof.
  intros H. destruct (is_digit_other c H) as (Hw & Hm & Hp & _).
  unfold parseFloat. cbn [trim_start]. rewrite Hw. cbn [read_sign].
  now rewrite Hm, Hp.
Qed.

(** Reading back what [Number::toString] wrote gives the number itself,
    except that [-0] is written [0] and read as [+0]. *)
Theorem parseFloat_Number_toString (x : number) :
  is_double x = true ->
  parseFloat (Number_toString x)
  = Spec.positive_zero x.
Proof.
  intros Hx. destruct x as [s | s | | s m e].
  - reflexivity.
  - destruct s; reflexivity.
  - reflexivity.
  - unfold is_double in Hx. cbn [valid_binary] in Hx.
    cbn [Number_toString].
    destruct (decimal_digits m e) as [[k n] d] eqn:D.
    destruct (decimal_digits_sound m e Hx k n d D) as (Hk & Hd & Hv).
    destruct s.
    + cbn [append]. unfold parseFloat. cbn [trim_start].
      change (is_whitespace "-") with false. cbv iota.
      cbn [read_sign]. change (Ascii.eqb "-" "-") with true. cbv iota.
      rewrite parse_unsigned_format by assumption.
      now apply of_decimal_sign.
    + cbn [append].
      destruct (format_decimal_head k n d Hk) as (c & r & Heq & Hc).
      rewrite Heq, parseFloat_digit by exact Hc. rewrite <- Heq.
      rewrite parse_unsigned_format by assumption. exact Hv.
Qed.

Lemma read_digits_nonneg (s : string) :
  forall acc cnt, 0 <= acc -> 0 <= fst (fst (read_digits acc cnt s)).
Proof.
  induction s as [| c r IH]; intros acc cnt Ha; cbn [read_digits]; [exact Ha |].
  destruct (is_digit c) eqn:Hc; [| exact Ha].
  apply IH. unfold is_digit in Hc. apply andb_true_iff in Hc.
  destruct Hc as [Hc _]. apply Nat.leb_le in Hc. unfold digit_val. lia.
Qed.

(** [parseFloat] returns a binary64 value, whatever the text. *)
Lemma parseFloat_double (s : string) : is_double (parseFloat s) = true.
Proof.
  unfold parseFloat. destruct (read_sign (trim_start s)) as [neg r].
  unfold parse_unsigned. destruct (prefix "Infinity" r); [reflexivity |].
  pose proof (read_digits_nonneg r 0 0 (Z.le_refl 0)) as H1.
  destruct (read_digits 0 0 r) as [[a1 c1] r1]. cbn [fst] in H1.
  assert (H2 : forall t, 0 <= fst (fst (read_digits a1 0 t)))
    by (intros t; now apply read_digits_nonneg).
  assert (Hd : forall a2 c2 r2, 0 <= a2 ->
            is_double (if c1 + c2 =? 0 then NaN
                       else of_decimal neg a2 (read_exponent r2 - c2)) = true).
  { intros a2 c2 r2 Ha. destruct (c1 + c2 =? 0); [reflexivity |].
    now apply of_decimal_double. }
  destruct r1 as [| c r']; [now apply Hd |].
  destruct (Ascii.eqb c "."); [| now apply Hd].
  specialize (H2 r'). destruct (read_digits a1 0 r') as [[a2 c2] r2].
  now apply Hd.
Qed.

(** *** Strict equality *)

Lemma strict_eq_sym (x y : number) : strict_eq x y = strict_eq y x.
Proof.
  unfold strict_eq, SFeqb.
  destruct x as [s1 | s1 | | s1 m1 e1], y as [s2 | s2 | | s2 m2 e2];
    cbn [SFcompare]; try reflexivity;
    try (destruct s1; reflexivity); try (destruct s2; reflexivity);
    try (destruct s1, s2; reflexivity).
  change (Pos.compare_cont Eq m1 m2) with (Pos.compare m1 m2).
  change (Pos.compare_cont Eq m2 m1) with (Pos.compare m2 m1).
  rewrite (Z.compare_antisym e1 e2), (Pos.compare_antisym m1 m2).
  destruct s1, s2; try reflexivity;
    destruct (e1 ?= e2); cbn [CompOpp]; try reflexivity;
    destruct (Pos.compare m1 m2); reflexivity.
Qed.

Lemma strict_eq_refl (x : number) : strict_eq x x = negb (isNaN x).
Proof.
  unfold strict_eq, SFeqb.
  destruct x as [s | s | | s m e]; cbn [SFcompare isNaN negb]; try reflexivity.
  - destruct s; reflexivity.
  - rewrite Z.compare_refl.
    change (Pos.compare_cont Eq m m) with (Pos.compare m m).
    rewrite Pos.compare_refl. destruct s; reflexivity.
Qed.

(** *** Array built-ins *)

Lemma at_index_nth (a : list number) (i : nat) :
  Arr.at_index a (Z.of_nat i) = nth_error a i.
Proof.
  unfold Arr.at_index. rewrite Nat2Z.id.
  destruct (Z.leb_spec 0 (Z.of_nat i)) as [_ | H0]; [| lia].
  destruct (Z.ltb_spec (Z.of_nat i) (Z.of_nat (List.length a))) as [H | H];
    cbn [andb]; [reflexivity |].
  symmetry. apply nth_error_None. lia.
Qed.

Lemma every_from_spec (f : number -> nat -> bool) (a : list number) :
  forall i, Arr.every_from f a i = true
            <-> (forall j x, nth_error a j = Some x -> f x (i + j)%nat = true).
Proof.
  induction a as [| v t IH]; intros i; cbn [Arr.every_from].
  - split; [intros _ [| j] x H; discriminate H | reflexivity].
  - destruct (f v i) eqn:F.
    + rewrite IH. split.
      * intros H [| j] x Hj.
        -- injection Hj as <-. now rewrite Nat.add_0_r.
        -- replace (i + S j)%nat with (S i + j)%nat by lia. apply (H j x Hj).
      * intros H j x Hj. replace (S i + j)%nat with (i + S j)%nat by lia.
        apply (H (S j) x Hj).
    + split; [discriminate |]. intros H.
      rewrite <- F, <- (Nat.add_0_r i). apply (H 0%nat v). reflexivity.
Qed.

Lemma skipn_nth {A : Type} (a : list A) :
  forall k x, nth_error a k = Some x -> skipn k a = x :: skipn (S k) a.
Proof.
  induction a as [| y a IH]; intros [| k] x E; try discriminate E.
  - injection E as ->. reflexivity.
  - cbn [nth_error] in E. change (skipn (S k) (y :: a)) with (skipn k a).
    rewrite (IH k x E). reflexivity.
Qed.

Lemma copy_range_firstn_skipn (a : list number) (count : nat) :
  forall k, Arr.copy_range a k count = firstn count (skipn k a).
Proof.
  induction count as [| c IH]; intros k; [reflexivity |].
  cbn [Arr.copy_range]. rewrite IH.
  destruct (nth_error a k) as [x |] eqn:E.
  - rewrite (skipn_nth a k x E). reflexivity.
  - apply nth_error_None in E.
    rewrite (skipn_all2 a) by lia. rewrite (skipn_all2 a) by lia.
    now rewrite !firstn_nil.
Qed.

(** *** The constructor on numbers *)


Lemma coerce_number (n : number) :
  Vector.coerce (Vector.JsNumber n) = Ok (parseFloat (Number_toString n)).
Proof. reflexivity. Qed.

Lemma map_result_numbers (s : list number) :
  Arr.map_result Vector.coerce (List.map Vector.JsNumber s)
  = Ok (List.map (fun n => parseFloat (Number_toString n)) s).
Proof.
  induction s as [| n t IH]; [reflexivity |].
  cbn [List.map Arr.map_result]. rewrite coerce_number. cbn [bind].
  rewrite IH. reflexivity.
Qed.

Lemma map_result_length {A B : Type} (f : A -> Result B) (a : list A) :
  forall b, Arr.map_result f a = Ok b -> List.length b = List.length a.
Proof.
  induction a as [| x t IH]; intros b H; cbn [Arr.map_result] in H.
  - injection H as <-. reflexivity.
  - destruct (f x) as [y | e]; cbn [bind] in H; [| discriminate H].
    destruct (Arr.map_result f t) as [r | e]; cbn [bind] in H; [| discriminate H].
    injection H as <-. cbn [List.length]. f_equal. now apply IH.
Qed.


Lemma positive_zero_double (x : number) :
  is_double x = true -> is_double (Spec.positive_zero x) = true.
Proof. destruct x; intros H; try exact H; reflexivity. Qed.

Lemma positive_zero_idem (x : number) :
  Spec.positive_zero (Spec.positive_zero x) = Spec.positive_zero x.
Proof. destruct x; reflexivity. Qed.

Lemma coerce_double (n : number) :
  is_double n = true -> parseFloat (Number_toString n) = Spec.positive_zero n.
Proof. apply parseFloat_Number_toString. Qed.

Lemma map_coerce_doubles (s : list number) :
  Forall (fun x => is_double x = true) s ->
  List.map (fun n => parseFloat (Number_toString n)) s = List.map Spec.positive_zero s.
Proof.
  intros H. apply map_ext_in. intros n Hn. apply coerce_double.
  rewrite Forall_forall in H. now apply H.
Qed.

Lemma relative_index_spec (len z : Z) :
  0 <= len ->
  Arr.relative_index len (Int z)
  = Z.max 0 (Z.min len (if z <? 0 then len + z else z)).
Proof.
  intros H. cbn [Arr.relative_index]. destruct (Z.ltb_spec z 0); lia.
Qed.

(** An integer below [2^53] is a number, and as a property key it is
    itself. *)
Lemma integer_key_of_Z (i : Z) :
  0 <= i < 2 ^ 53 -> Arr.integer_key (of_Z i) = Some i.
Proof.
  intros Hi. destruct (Z.eq_dec i 0) as [-> | Hnz]; [reflexivity |].
  set (L := Z.log2 i).
  assert (HL : 0 <= L < 53).
  { split; [apply Z.log2_nonneg | apply Z.log2_lt_pow2; lia]. }
  set (sh := 52 - L).
  assert (Hsh : 0 < 2 ^ sh) by (apply Z.pow_pos_nonneg; lia).
  set (m := i * 2 ^ sh).
  assert (Hm : 0 < m) by (unfold m; nia).
  assert (Hlm : Z.log2 m = 52).
  { unfold m. rewrite Z.log2_mul_pow2 by lia. unfold sh, L. lia. }
  assert (Hb : bounded prec emax (Z.to_pos m) (- sh) = true).
  { unfold bounded, canonical_mantissa. rewrite digits2_pos_log2.
    rewrite Z2Pos.id by exact Hm. rewrite Hlm.
    apply andb_true_iff. split; [apply Z.eqb_eq | apply Z.leb_le].
    - unfold fexp, SpecFloat.emin, prec, emax. lia.
    - unfold prec, emax. lia. }
  assert (Hr : of_Z i = S754_finite false (Z.to_pos m) (- sh)).
  { unfold of_Z, of_decimal. rewrite Z.abs_eq by lia.
    destruct (Z.ltb_spec i 0); [lia |].
    destruct (Z.eqb_spec i 0); [lia |].
    change (0 <=? 0) with true. cbv iota. rewrite Z.pow_0_r, Z.mul_1_r.
    apply round_ratio_exact; [lia | lia | exact Hb |].
    rewrite Z2Pos.id by exact Hm. rewrite Z.opp_involutive.
    rewrite Z.max_r by lia. rewrite Z.max_l by lia.
    unfold m. rewrite Z.pow_0_r. ring. }
  rewrite Hr. cbn [Arr.integer_key]. rewrite Z2Pos.id by exact Hm.
  rewrite Z.opp_involutive.
  destruct (Z.leb_spec 0 (- sh)) as [H0 | H0].
  - assert (sh = 0) by lia. unfold m. replace sh with 0 by lia.
    rewrite Z.opp_0, !Z.pow_0_r. f_equal. lia.
  - unfold m. rewrite Z.mod_mul by lia. rewrite Z.eqb_refl.
    rewrite Z.div_mul by lia. f_equal. lia.
Qed.

(** ** The class *)

(** The class invariant: every element of a constructed Vector is a
    binary64 value. *)
Lemma constructor_doubles (s : list JsValue) (v : Vector.t) :
  constructor s = Ok v -> Forall (fun x => is_double x = true) (value v).
Proof.
  unfold constructor. intros H.
  destruct (Arr.map_result coerce s) as [a | e] eqn:Hm; [| discriminate H].
  cbn [bind] in H. injection H as <-. cbn [value].
  revert a Hm. induction s as [| x t IH]; intros a Hm; cbn [Arr.map_result] in Hm.
  - injection Hm as <-. constructor.
  - unfold coerce at 1 in Hm.
    destruct (call_toString x) as [str | e]; cbn [bind] in Hm; [| discriminate Hm].
    destruct (Arr.map_result coerce t) as [r | e]; cbn [bind] in Hm;
      [| discriminate Hm].
    injection Hm as <-. constructor; [apply parseFloat_double | now apply IH].
Qed.

(** The examples of the specification and of the language. *)
Example toString_example :
  (v <- constructor [JsNumber (of_Z 1); JsNumber (of_Z 2); JsNumber (of_Z 3)] ;;
   Ok (toString v)) = Ok "Vector<1, 2, 3>".
Proof. vm_compute. reflexivity. Qed.

Example Number_toString_examples :
  List.map Number_toString
    [of_decimal false 15 (-1); of_decimal false 1 (-1); of_decimal false 1 21;
     of_decimal false 123456789012345678901 0; of_decimal false 1 (-7);
     of_decimal false 5 (-324); of_decimal true 25 (-7);
     of_decimal false 17976931348623157 292; of_decimal false 1 400;
     of_Z 9007199254740993; neg_zero; NaN]
  = ["1.5"; "0.1"; "1e+21"; "123456789012345680000"; "1e-7"; "5e-324";
     "-0.0000025"; "1.7976931348623157e+308"; "Infinity"; "9007199254740992";
     "0"; "NaN"].
Proof. vm_compute. reflexivity. Qed.

Example parseFloat_examples :
  List.map parseFloat
    ["abc"; "  12abc"; "-0"; ".5"; "5."; "."; "1e3"; "1e"; "-Infinity"; "";
     "0x10"; "true"]
  = [NaN; of_Z 12; neg_zero; of_decimal false 5 (-1); of_Z 5; NaN; of_Z 1000;
     of_Z 1; S754_infinity true; NaN; pos_zero; NaN].
Proof. vm_compute. reflexivity. Qed.

(** C1.  For every Vector [v], [_toDict] returns exactly the record
    [{array_value: {values: [{double_value: v0}, ...]}, meaning: 31,
    exclude_from_indexes: true}]: the list of values has the length of
    [v], its [i]-th [double_value] is the [i]-th element of [v], and the
    meaning tag is the constant 31.  The last part is the example of the
    specification, [Vector([1.5, -2.0])]. *)
Theorem toDict_wire_format (v : Vector.t) :
  _toDict v
  = {| array_value :=
         {| values := List.map (fun x => {| double_value := x |}) (value v) |};
       meaning := of_Z 31;
       exclude_from_indexes := true |}
  /\ List.length (values (array_value (_toDict v))) = Vector.length v
  /\ (forall i, nth_error (values (array_value (_toDict v))) i
                = option_map (fun x => {| double_value := x |})
                    (nth_error (value v) i))
  /\ Arr.integer_key (meaning (_toDict v)) = Some 31
  /\ (v <- constructor [JsNumber (of_decimal false 15 (-1));
                        JsNumber (of_decimal true 2 0)] ;; Ok (_toDict v))
     = Ok {| array_value :=
               {| values := [ {| double_value := of_decimal false 15 (-1) |};
                              {| double_value := of_decimal true 2 0 |} ] |};
             meaning := of_Z 31;
             exclude_from_indexes := true |}.
Proof.
  split; [reflexivity |]. split; [apply length_map |].
  split; [intros i; apply nth_error_map |].
  split; [reflexivity | vm_compute; reflexivity].
Qed.

Lemma equals_vector (v1 v2 : Vector.t) :
  equals v1 (JsVector v2)
  = Ok ((List.length (value v1) =? List.length (value v2))%nat
        && Arr.every
             (fun x i => strict_equals x (Arr.at_index (value v2) (Z.of_nat i)))
             (value v1)).
Proof. reflexivity. Qed.

Lemma equals_true_iff (v1 v2 : Vector.t) :
  equals v1 (JsVector v2) = Ok true <-> Spec.elementwise (value v1) (value v2).
Proof.
  rewrite equals_vector. unfold Spec.elementwise, Arr.every. split.
  - intros H. injection H as H. apply andb_true_iff in H. destruct H as [Hl He].
    apply Nat.eqb_eq in Hl. split; [exact Hl |].
    intros i x y Hx Hy.
    rewrite every_from_spec in He. specialize (He i x Hx).
    cbn [Nat.add] in He. rewrite at_index_nth, Hy in He. exact He.
  - intros [Hl He]. f_equal. apply andb_true_iff. split; [now apply Nat.eqb_eq |].
    apply every_from_spec. intros j x Hx. cbn [Nat.add]. rewrite at_index_nth.
    destruct (nth_error (value v2) j) as [y |] eqn:Hy.
    + exact (He j x y Hx Hy).
    + apply nth_error_None in Hy.
      assert (j < List.length (value v1))%nat by (apply nth_error_Some; congruence).
      lia.
Qed.

(** C2.  For two Vectors [v1] and [v2], [v1.equals(v2)] returns [true]
    exactly when they have the same length and at every position the
    element of [v1] equals, by [===], the element of [v2].  The three
    examples are [Vector([1,2,3])] against [Vector([1,2,3])] (true),
    [Vector([1,2,3,4])] (false) and [Vector([3,2,1])] (false). *)
Theorem equals_elementwise (v1 v2 : Vector.t) :
  (exists b, equals v1 (JsVector v2) = Ok b
             /\ (b = true <->
                 List.length (value v1) = List.length (value v2)
                 /\ forall i x y, nth_error (value v1) i = Some x ->
                                  nth_error (value v2) i = Some y ->
                                  strict_eq x y = true))
  /\ (a <- constructor [JsNumber (of_Z 1); JsNumber (of_Z 2); JsNumber (of_Z 3)] ;;
      b <- constructor [JsNumber (of_Z 1); JsNumber (of_Z 2); JsNumber (of_Z 3)] ;;
      equals a (JsVector b)) = Ok true
  /\ (a <- constructor [JsNumber (of_Z 1); JsNumber (of_Z 2); JsNumber (of_Z 3)] ;;
      b <- constructor [JsNumber (of_Z 1); JsNumber (of_Z 2); JsNumber (of_Z 3);
                        JsNumber (of_Z 4)] ;;
      equals a (JsVector b)) = Ok false
  /\ (a <- constructor [JsNumber (of_Z 1); JsNumber (of_Z 2); JsNumber (of_Z 3)] ;;
      b <- constructor [JsNumber (of_Z 3); JsNumber (of_Z 2); JsNumber (of_Z 1)] ;;
      equals a (JsVector b)) = Ok false.
Proof.
  split.
  - rewrite equals_vector. eexists. split; [reflexivity |].
    pose proof (equals_true_iff v1 v2) as H. rewrite equals_vector in H.
    rewrite <- H. split; [intros ->; reflexivity | intros E; now injection E].
  - repeat split; vm_compute; reflexivity.
Qed.

Lemma every_self (a : list number) :
  forall i pre, (List.length pre = i)%nat ->
    Arr.every_from
      (fun x j => strict_equals x (Arr.at_index (pre ++ a)%list (Z.of_nat j))) a i
    = negb (existsb isNaN a).
Proof.
  induction a as [| x t IH]; intros i pre Hp; [reflexivity |].
  cbn [Arr.every_from existsb]. rewrite at_index_nth.
  rewrite nth_error_app2 by lia. replace (i - List.length pre)%nat with 0%nat by lia.
  cbn [nth_error strict_equals]. rewrite strict_eq_refl, negb_orb.
  destruct (isNaN x); cbn [negb andb]; [reflexivity |].
  replace (pre ++ x :: t)%list with ((pre ++ [x]) ++ t)%list by (rewrite <- app_assoc; reflexivity).
  apply IH. rewrite length_app. cbn [List.length]. lia.
Qed.

Lemma equals_self (v : Vector.t) :
  equals v (JsVector v) = Ok (negb (existsb isNaN (value v))).
Proof.
  rewrite equals_vector, Nat.eqb_refl. cbn [andb]. f_equal.
  exact (every_self (value v) 0%nat [] eq_refl).
Qed.

(** C3, as amended.  [equals] is symmetric: [v1.equals(v2)] and
    [v2.equals(v1)] return the same boolean; and [v.equals(v)] returns
    [true] exactly when no element of [v] is not-a-number. *)
Theorem equals_symmetric_reflexive_unless_NaN (v1 v2 : Vector.t) :
  equals v1 (JsVector v2) = equals v2 (JsVector v1)
  /\ equals v1 (JsVector v1) = Ok (negb (existsb isNaN (value v1))).
Proof.
  split; [| apply equals_self].
  destruct (equals v1 (JsVector v2)) as [b1 | e1] eqn:E1; [| discriminate E1].
  destruct (equals v2 (JsVector v1)) as [b2 | e2] eqn:E2; [| discriminate E2].
  f_equal. apply eq_true_iff_eq.
  assert (Hs : forall a b, Spec.elementwise a b -> Spec.elementwise b a).
  { unfold Spec.elementwise. intros a b [Hl He]. split; [now symmetry |].
    intros i x y Hx Hy. rewrite strict_eq_sym. exact (He i y x Hy Hx). }
  pose proof (equals_true_iff v1 v2) as H1.
  pose proof (equals_true_iff v2 v1) as H2.
  rewrite E1 in H1. rewrite E2 in H2.
  split; intros ->.
  - assert (H : Ok b2 = Ok true) by (apply H2, Hs, H1; reflexivity).
    now injection H.
  - assert (H : Ok b1 = Ok true) by (apply H1, Hs, H2; reflexivity).
    now injection H.
Qed.

(** C3 as stated fails: [Vector([NaN])] is a Vector, and it does not
    equal itself. *)
Lemma equals_not_reflexive_on_NaN :
  constructor [JsNumber NaN] = Ok {| value := [NaN] |}
  /\ equals {| value := [NaN] |} (JsVector {| value := [NaN] |}) = Ok false.
Proof. split; reflexivity. Qed.

(** C4.  There is a Vector [v] for which [v.equals(v)] returns [false]
    (the one constructed from the non-numeric input ["abc"], coerced to
    not-a-number); and whenever an element of [v] is not-a-number, at
    any position, [v.equals(v)] is [false]. *)
Theorem equals_self_false_with_NaN :
  (exists v, constructor [JsString "abc"] = Ok v
             /\ equals v (JsVector v) = Ok false)
  /\ (forall v : Vector.t, existsb isNaN (value v) = true ->
                           equals v (JsVector v) = Ok false).
Proof.
  split.
  - exists {| value := [NaN] |}. split; reflexivity.
  - intros v H. rewrite equals_self, H. reflexivity.
Qed.

Lemma equals_self_false_with_NaN_witness :
  existsb isNaN (value {| value := [of_Z 1; NaN; of_Z 3] |}) = true
  /\ equals {| value := [of_Z 1; NaN; of_Z 3] |}
            (JsVector {| value := [of_Z 1; NaN; of_Z 3] |}) = Ok false.
Proof.
  split; [reflexivity |].
  apply (proj2 equals_self_false_with_NaN {| value := [of_Z 1; NaN; of_Z 3] |}).
  reflexivity.
Defined.

Lemma constructor_numbers (s : list number) :
  constructor (List.map JsNumber s)
  = Ok {| value := List.map (fun n => parseFloat (Number_toString n)) s |}.
Proof. unfold constructor. rewrite map_result_numbers. reflexivity. Qed.

Lemma parseFloat_no_prefix (s : string) :
  Spec.numeric_prefix s = false -> parseFloat s = NaN.
Proof.
  unfold Spec.numeric_prefix, parseFloat.
  destruct (read_sign (trim_start s)) as [neg r].
  intros H. apply orb_false_iff in H. destruct H as [Hp H].
  unfold parse_unsigned. rewrite Hp.
  destruct r as [| c r']; [reflexivity |].
  apply orb_false_iff in H. destruct H as [Hc H].
  rewrite (read_digits_stop 0 0 c r' Hc).
  destruct (Ascii.eqb c "."); [| reflexivity].
  cbn [andb] in H. destruct r' as [| d r'']; [reflexivity |].
  rewrite (read_digits_stop 0 0 d r'' H). reflexivity.
Qed.

(** C5, as amended.  [equals] raises exactly when its argument is no
    instance of Vector.  On the documented domain nothing else raises:
    the constructor returns a Vector for every array of numbers and
    [slice] for every Vector and bounds ([get], [length], [toString] and
    [_toDict] are total functions).  A string element with no numeric
    prefix and a boolean element become not-a-number. *)
Theorem failure_modes :
  (forall (v : Vector.t) (other : JsValue),
      throws (equals v other) <-> (forall o, other <> JsVector o))
  /\ (forall s : list number, exists v, constructor (List.map JsNumber s) = Ok v)
  /\ (forall (v : Vector.t) (start end_ : option number),
         exists v', slice v start end_ = Ok v')
  /\ (forall str, Spec.numeric_prefix str = false ->
                  constructor [JsString str] = Ok {| value := [NaN] |})
  /\ (forall b, constructor [JsBoolean b] = Ok {| value := [NaN] |}).
Proof.
  split; [| split; [| split; [| split]]].
  - intros v other. unfold throws. split.
    + intros [e H] o ->. discriminate H.
    + intros H. destruct other; try (eexists; reflexivity).
      now destruct (H v0).
  - intros s. eexists. apply constructor_numbers.
  - intros v start end_. eexists. apply constructor_numbers.
  - intros str H. unfold constructor. cbn [Arr.map_result coerce call_toString bind].
    now rewrite (parseFloat_no_prefix str H).
  - intros []; reflexivity.
Qed.

Lemma failure_modes_witness :
  Spec.numeric_prefix "abc" = false
  /\ constructor [JsString "abc"] = Ok {| value := [NaN] |}.
Proof.
  split; [reflexivity |].
  apply (proj1 (proj2 (proj2 (proj2 failure_modes))) "abc"). reflexivity.
Defined.

(** C5 as stated fails: a [null] or [undefined] element is non-numeric
    input, and the constructor raises a [TypeError] on it instead of
    storing not-a-number. *)
Lemma constructor_raises_on_null :
  constructor [JsNull]
  = Throw (TypeError "Cannot read properties of null (reading 'toString')")
  /\ constructor [JsNumber (of_Z 1); JsUndefined]
     = Throw (TypeError "Cannot read properties of undefined (reading 'toString')").
Proof. split; vm_compute; reflexivity. Qed.

(** *** slice *)

Lemma slice_bounds (a : list number) (start end_ : option number) :
  let len := Z.of_nat (List.length a) in
  Arr.slice a start end_
  = Spec.subrange a (Spec.bound_of len 0 start) (Spec.bound_of len len end_).
Proof.
  intros len. unfold Arr.slice. fold len. rewrite copy_range_firstn_skipn.
  assert (Hlen : 0 <= len) by (unfold len; lia).
  assert (Hb : forall n, Arr.relative_index len (ToIntegerOrInfinity n)
                         = Spec.bound_of len 0 (Some n)).
  { intros n. cbn [Spec.bound_of].
    destruct (ToIntegerOrInfinity n) as [z | |]; try reflexivity.
    apply relative_index_spec. exact Hlen. }
  assert (Hs : Arr.relative_index len
                 match start with Some x => ToIntegerOrInfinity x | None => Int 0 end
               = Spec.bound_of len 0 start).
  { destruct start as [n |]; [apply Hb |]. cbn [Arr.relative_index Spec.bound_of].
    change (0 <? 0) with false. cbv iota. lia. }
  assert (He : match end_ with
               | Some x => Arr.relative_index len (ToIntegerOrInfinity x)
               | None => len
               end = Spec.bound_of len len end_).
  { destruct end_ as [n |]; [| reflexivity]. rewrite Hb. reflexivity. }
  rewrite Hs, He. unfold Spec.subrange. f_equal. lia.
Qed.

Lemma Forall_subrange {A : Type} (P : A -> Prop) (a : list A) (lo hi : Z) :
  Forall P a -> Forall P (Spec.subrange a lo hi).
Proof.
  intros H. unfold Spec.subrange.
  assert (Hs : Forall P (skipn (Z.to_nat lo) a)).
  { rewrite <- (firstn_skipn (Z.to_nat lo) a) in H.
    apply Forall_app in H. apply H. }
  rewrite <- (firstn_skipn (Z.to_nat (hi - lo)) (skipn (Z.to_nat lo) a)) in Hs.
  apply Forall_app in Hs. apply Hs.
Qed.

(** C6, as amended.  For every Vector [v] (its elements binary64
    numbers) and optional bounds, [v.slice(start, end)] returns a Vector
    over the half-open sub-range of the value of [v] between the two
    bounds, a negative bound counted from the end and every bound
    clamped to [[0, length]]; an omitted [start] is 0 and an omitted
    [end] is the length.  The constructor reads the elements of the
    sub-range again, so each is kept as it is except that a [-0] becomes
    [+0]: when [v] holds no [-0], as every Vector constructed from
    numbers does, the value is the sub-range itself.  ([v] is an
    argument of a function here, and is what it was: see C10 for the
    store.) *)
Theorem slice_half_open_range (v : Vector.t) (start end_ : option number) :
  Forall (fun x => is_double x = true) (value v) ->
  let len := Z.of_nat (Vector.length v) in
  let sub := Spec.subrange (value v) (Spec.bound_of len 0 start)
               (Spec.bound_of len len end_) in
  slice v start end_ = Ok {| value := List.map Spec.positive_zero sub |}
  /\ (Forall (fun x => x <> neg_zero) (value v) ->
      slice v start end_ = Ok {| value := sub |})
  /\ (forall s : list number,
         Forall (fun x => is_double x = true) s ->
         constructor (List.map JsNumber s) = Ok v ->
         slice v start end_ = Ok {| value := sub |}).
Proof.
  intros Hd len sub.
  assert (Hs : slice v start end_ = Ok {| value := List.map Spec.positive_zero sub |}).
  { unfold slice. rewrite constructor_numbers, slice_bounds.
    f_equal. f_equal. apply map_coerce_doubles.
    apply Forall_subrange. exact Hd. }
  assert (Hfix : Forall (fun x => x <> neg_zero) (value v) ->
                 List.map Spec.positive_zero sub = sub).
  { intros Hn. rewrite <- (map_id sub) at 2. apply map_ext_in. intros x Hx.
    assert (Hsub : Forall (fun x => x <> neg_zero) sub)
      by (apply Forall_subrange; exact Hn).
    rewrite Forall_forall in Hsub. specialize (Hsub x Hx).
    destruct x as [[] | | |]; try reflexivity. now destruct Hsub. }
  split; [exact Hs |]. split.
  - intros Hn. rewrite Hs, (Hfix Hn). reflexivity.
  - intros s Hds Hv. rewrite Hs, Hfix; [reflexivity |].
    rewrite constructor_numbers in Hv. injection Hv as <-. cbn [value].
    apply Forall_forall. intros x Hx. apply in_map_iff in Hx.
    destruct Hx as (n & <- & Hn).
    rewrite Forall_forall in Hds. rewrite coerce_double by (now apply Hds).
    destruct n; discriminate.
Qed.

Lemma slice_half_open_range_witness :
  let v := {| value := [of_Z 1; neg_zero; of_Z 3; of_Z 4; of_Z 5] |} in
  let start := Some (of_Z 1) in
  let end_ := Some (of_Z (-1)) in
  Forall (fun x => is_double x = true) (value v)
  /\ slice v start end_
     = Ok {| value := List.map Spec.positive_zero
                        (Spec.subrange (value v) (Spec.bound_of 5 0 start)
                           (Spec.bound_of 5 5 end_)) |}
  /\ List.map Spec.positive_zero
       (Spec.subrange (value v) (Spec.bound_of 5 0 start) (Spec.bound_of 5 5 end_))
     = [pos_zero; of_Z 3; of_Z 4].
Proof.
  intros v start end_.
  assert (Hd : Forall (fun x => is_double x = true) (value v))
    by (repeat constructor).
  split; [exact Hd |].
  split; [exact (proj1 (slice_half_open_range v start end_ Hd)) |].
  vm_compute. reflexivity.
Defined.

(** C6 as stated fails: [Vector(['-0', 2])] holds [-0], and its slice
    over the whole range holds [+0] in its place, which is not the
    sub-range of the value. *)
Lemma slice_rewrites_negative_zero :
  constructor [JsString "-0"; JsNumber (of_Z 2)]
  = Ok {| value := [neg_zero; of_Z 2] |}
  /\ slice {| value := [neg_zero; of_Z 2] |} None None
     = Ok {| value := [pos_zero; of_Z 2] |}
  /\ Spec.subrange [neg_zero; of_Z 2] (Spec.bound_of 2 0 None)
       (Spec.bound_of 2 2 None)
     = [neg_zero; of_Z 2]
  /\ pos_zero <> neg_zero.
Proof.
  split; [vm_compute; reflexivity |]. split; [vm_compute; reflexivity |].
  split; [vm_compute; reflexivity | discriminate].
Qed.

Lemma get_at (v : Vector.t) (index : number) (i : nat) :
  Arr.integer_key index = Some (Z.of_nat i) ->
  get v index = match nth_error (value v) i with
                | Some x => JsNumber x
                | None => JsUndefined
                end.
Proof.
  intros H. unfold get, Arr.element. rewrite H, at_index_nth. reflexivity.
Qed.




(** C8.  For a Vector [v] and an index outside [[0, v.length)], that is
    one that denotes no integer or an integer below 0 or not below the
    length, [v.get(index)] returns [undefined]; nothing is raised, and
    in the store nothing is changed. *)
Theorem get_out_of_range_undefined (v : Vector.t) (index : number) :
  (forall i, Arr.integer_key index = Some i ->
             i < 0 \/ Z.of_nat (Vector.length v) <= i) ->
  get v index = JsUndefined
  /\ (forall h this, Heap.read h this = Some (value v) ->
                     Heap.get h this index = Some (h, JsUndefined)).
Proof.
  intros H.
  assert (Hg : get v index = JsUndefined).
  { unfold get, Arr.element.
    destruct (Arr.integer_key index) as [i |]; [| reflexivity].
    unfold Arr.at_index. unfold Vector.length in H.
    destruct (H i eq_refl) as [Hi | Hi].
    - destruct (Z.leb_spec 0 i); [lia | reflexivity].
    - destruct (Z.ltb_spec i (Z.of_nat (List.length (value v)))); [lia |].
      now rewrite andb_false_r. }
  split; [exact Hg |].
  intros h this Hr. unfold Heap.get. rewrite Hr.
  destruct v as [l]. cbn [value] in *. now rewrite Hg.
Qed.

Lemma get_out_of_range_undefined_witness :
  let v := {| value := [of_Z 1; of_Z 2; of_Z 3] |} in
  (forall i, Arr.integer_key (of_Z 3) = Some i ->
             i < 0 \/ Z.of_nat (Vector.length v) <= i)
  /\ get v (of_Z 3) = JsUndefined
  /\ get v (of_Z (-1)) = JsUndefined
  /\ get v (of_decimal false 5 (-1)) = JsUndefined
  /\ get v NaN = JsUndefined.
Proof.
  intros v.
  assert (H : forall i, Arr.integer_key (of_Z 3) = Some i ->
                        i < 0 \/ Z.of_nat (Vector.length v) <= i).
  { intros i Hi. vm_compute in Hi. injection Hi as <-. right. vm_compute.
    discriminate. }
  split; [exact H |].
  split; [exact (proj1 (get_out_of_range_undefined v (of_Z 3) H)) |].
  repeat split; vm_compute; reflexivity.
Defined.

(** C9.  [Vector(s).length] is the number of elements of [s]: for every
    array of numbers the constructor returns a Vector of that length,
    and whatever the elements are, a Vector it returns has the length of
    its input. *)
Theorem constructor_preserves_length :
  (forall s : list number,
      exists v, constructor (List.map JsNumber s) = Ok v
                /\ Vector.length v = List.length s)
  /\ (forall (s : list JsValue) (v : Vector.t),
         constructor s = Ok v -> Vector.length v = List.length s).
Proof.
  assert (H : forall (s : list JsValue) (v : Vector.t),
             constructor s = Ok v -> Vector.length v = List.length s).
  { intros s v Hv. unfold constructor in Hv.
    destruct (Arr.map_result coerce s) as [a | e] eqn:Hm; [| discriminate Hv].
    cbn [bind] in Hv. injection Hv as <-.
    exact (map_result_length coerce s a Hm). }
  split; [| exact H].
  intros s. eexists. split; [apply constructor_numbers |].
  rewrite (H _ _ (constructor_numbers s)). apply length_map.
Qed.

Lemma constructor_preserves_length_witness :
  let s := [JsNumber (of_Z 7); JsString "abc"; JsBoolean true] in
  let v := {| value := [of_Z 7; NaN; NaN] |} in
  constructor s = Ok v /\ Vector.length v = List.length s.
Proof.
  intros s v.
  assert (Hv : constructor s = Ok v) by (vm_compute; reflexivity).
  split; [exact Hv |].
  exact (proj2 constructor_preserves_length s v Hv).
Defined.

(** ** The store *)

Lemma lookup_app (h ext : Heap.heap) (q : Heap.ref) (o : Heap.object) :
  Heap.lookup h q = Some o -> Heap.lookup (h ++ ext)%list q = Some o.
Proof.
  unfold Heap.lookup. intros H. rewrite nth_error_app1; [exact H |].
  apply nth_error_Some. congruence.
Qed.

Lemma lookup_new (h : Heap.heap) (o : Heap.object) :
  Heap.lookup (h ++ [o])%list (List.length h) = Some o.
Proof.
  unfold Heap.lookup. rewrite nth_error_app2 by lia.
  now rewrite Nat.sub_diag.
Qed.

Lemma read_app (h ext : Heap.heap) (this : Heap.ref) (l : list number) :
  Heap.read h this = Some l -> Heap.read (h ++ ext)%list this = Some l.
Proof.
  unfold Heap.read, Heap.read_array. intros H.
  destruct (Heap.lookup h this) as [[a | r] |] eqn:Ht; try discriminate H.
  rewrite (lookup_app h ext this _ Ht).
  destruct (Heap.lookup h r) as [[a | r'] |] eqn:Hr; try discriminate H.
  now rewrite (lookup_app h ext r _ Hr).
Qed.

Lemma read_allocated (h : Heap.heap) (this : Heap.ref) (l : list number) :
  Heap.read h this = Some l -> (this < List.length h)%nat.
Proof.
  unfold Heap.read. intros H.
  destruct (Heap.lookup h this) as [o |] eqn:Ht; [| discriminate H].
  apply nth_error_Some. unfold Heap.lookup in Ht. congruence.
Qed.

(** C10.  In a store where [this] is a Vector of value [l]: [get],
    [length], [toString], [_toDict] and [equals] return the store they
    were given; [slice] returns a reference that was not allocated
    before, to a new Vector, leaves every object of the store as it was,
    the receiver and its value among them, and only adds to the store. *)
Theorem methods_leave_store_unchanged (h : Heap.heap) (this : Heap.ref)
    (l : list number) :
  Heap.read h this = Some l ->
  (forall index, Heap.get h this index = Some (h, get {| value := l |} index))
  /\ Heap.length h this = Some (h, List.length l)
  /\ Heap.toString h this = Some (h, toString {| value := l |})
  /\ Heap._toDict h this = Some (h, _toDict {| value := l |})
  /\ (forall other h' r, Heap.equals h this other = Some (h', r) -> h' = h)
  /\ (forall start end_, exists h' r l',
         Heap.slice h this start end_ = Some (h', Ok r)
         /\ Heap.lookup h r = None
         /\ r <> this
         /\ (forall q o, Heap.lookup h q = Some o -> Heap.lookup h' q = Some o)
         /\ Heap.read h' this = Some l
         /\ Heap.read h' r = Some l'
         /\ slice {| value := l |} start end_ = Ok {| value := l' |}).
Proof.
  intros Hr.
  split; [intros index; unfold Heap.get; now rewrite Hr |].
  split; [unfold Heap.length; now rewrite Hr |].
  split; [unfold Heap.toString; now rewrite Hr |].
  split; [unfold Heap._toDict; now rewrite Hr |].
  split.
  - intros other h' r H. unfold Heap.equals in H. rewrite Hr in H.
    destruct (Heap.lookup h other) as [[a | a] |]; try discriminate H.
    + now injection H.
    + destruct (Heap.read h other); [now injection H | discriminate H].
  - intros start end_.
    set (sl := Arr.slice l start end_).
    set (a := List.map (fun n => parseFloat (Number_toString n)) sl).
    set (h1 := (h ++ [Heap.ArrayObject sl])%list).
    set (h2 := (h1 ++ [Heap.ArrayObject a])%list).
    set (h3 := (h2 ++ [Heap.VectorObject (List.length h1)])%list).
    exists h3, (List.length h2), a.
    pose proof (read_allocated h this l Hr) as Hlt.
    assert (Hl2 : List.length h2 = (List.length h + 2)%nat).
    { unfold h2, h1. rewrite !length_app. cbn [List.length]. lia. }
    split; [| split; [| split; [| split; [| split; [| split]]]]].
    + unfold Heap.slice. rewrite Hr. cbn [Heap.alloc]. fold sl h1.
      unfold Heap.read_array. unfold h1 at 1. rewrite lookup_new.
      unfold Heap.new. rewrite map_result_numbers. reflexivity.
    + unfold Heap.lookup. apply nth_error_None. lia.
    + lia.
    + intros q o Hq. unfold h3, h2, h1. now do 3 apply lookup_app.
    + unfold h3, h2, h1. now do 3 apply read_app.
    + unfold Heap.read. unfold h3 at 1. rewrite lookup_new.
      unfold Heap.read_array, h3. rewrite (lookup_app h2 _ (List.length h1) (Heap.ArrayObject a)).
      * reflexivity.
      * unfold h2. apply lookup_new.
    + unfold slice. cbn [value]. fold sl. apply constructor_numbers.
Qed.

Lemma methods_leave_store_unchanged_witness :
  let h := [Heap.ArrayObject [of_Z 1; of_Z 2; of_Z 3]; Heap.VectorObject 0%nat] in
  Heap.read h 1%nat = Some [of_Z 1; of_Z 2; of_Z 3]
  /\ Heap.length h 1%nat = Some (h, 3%nat).
Proof.
  intros h. split; [reflexivity |].
  exact (proj1 (proj2 (methods_leave_store_unchanged h 1%nat _ eq_refl))).
Defined.

(* ================================================================== *)
(** ** Further properties of the class *)

(** [===] is the identity of the values with the zeros merged, away from
    not-a-number. *)
Lemma strict_eq_iff (x y : number) :
  strict_eq x y = true
  <-> Spec.positive_zero x = Spec.positive_zero y /\ isNaN x = false.
Proof.
  unfold strict_eq, SFeqb. split.
  - intros H.
    destruct x as [s1 | s1 | | s1 m1 e1], y as [s2 | s2 | | s2 m2 e2];
      cbn [SFcompare] in H; try discriminate H;
      try (destruct s1; discriminate H); try (destruct s2; discriminate H);
      cbn [Spec.positive_zero isNaN]; (split; [| reflexivity]).
    + reflexivity.
    + destruct s1, s2; try discriminate H; reflexivity.
    + change (Pos.compare_cont Eq m1 m2) with (Pos.compare m1 m2) in H.
      destruct s1, s2; try discriminate H;
        destruct (Z.compare_spec e1 e2) as [He | He | He]; try discriminate H;
        destruct (Pos.compare_spec m1 m2) as [Hm | Hm | Hm]; try discriminate H;
        now subst.
  - intros [H N].
    destruct x as [s1 | s1 | | s1 m1 e1], y as [s2 | s2 | | s2 m2 e2];
      cbn [Spec.positive_zero isNaN] in H, N; try discriminate H; try discriminate N;
      cbn [SFcompare].
    + reflexivity.
    + injection H as ->. destruct s2; reflexivity.
    + injection H as -> -> ->.
      change (Pos.compare_cont Eq m2 m2) with (Pos.compare m2 m2).
      rewrite Z.compare_refl, Pos.compare_refl. destruct s2; reflexivity.
Qed.

Lemma bound_of_range (len d : Z) (x : option number) :
  0 <= d <= len -> 0 <= Spec.bound_of len d x <= len.
Proof.
  intros H. unfold Spec.bound_of, Spec.bound.
  destruct x as [n |]; [| exact H].
  destruct (ToIntegerOrInfinity n) as [z | |]; [destruct (z <? 0) | |]; lia.
Qed.

Lemma nth_error_subrange {A : Type} (a : list A) (lo hi : Z) (i : nat) :
  0 <= lo ->
  nth_error (Spec.subrange a lo hi) i
  = if Z.of_nat i <? hi - lo then nth_error a (Z.to_nat lo + i) else None.
Proof.
  intros Hlo. unfold Spec.subrange. rewrite nth_error_firstn, nth_error_skipn.
  destruct (Z.ltb_spec (Z.of_nat i) (hi - lo));
    destruct (Nat.ltb_spec i (Z.to_nat (hi - lo))); try reflexivity; lia.
Qed.

Lemma length_subrange {A : Type} (a : list A) (lo hi : Z) :
  0 <= lo -> hi <= Z.of_nat (List.length a) ->
  Z.of_nat (List.length (Spec.subrange a lo hi)) = Z.max 0 (hi - lo).
Proof.
  intros Hlo Hhi. unfold Spec.subrange. rewrite length_firstn, length_skipn. lia.
Qed.

(** [slice] on any instance: the sub-range, each element written and
    read again by the constructor. *)
Lemma slice_reads (v : Vector.t) (start end_ : option number) :
  let len := Z.of_nat (Vector.length v) in
  slice v start end_
  = Ok {| value := List.map (fun n => parseFloat (Number_toString n))
                     (Spec.subrange (value v) (Spec.bound_of len 0 start)
                        (Spec.bound_of len len end_)) |}.
Proof.
  intros len. unfold slice. rewrite constructor_numbers, slice_bounds. reflexivity.
Qed.

Lemma slice_doubles (v : Vector.t) (start end_ : option number) :
  Forall (fun x => is_double x = true) (value v) ->
  let len := Z.of_nat (Vector.length v) in
  slice v start end_
  = Ok {| value := List.map Spec.positive_zero
                     (Spec.subrange (value v) (Spec.bound_of len 0 start)
                        (Spec.bound_of len len end_)) |}.
Proof.
  intros Hd len. rewrite slice_reads. fold len. f_equal. f_equal.
  apply map_coerce_doubles. now apply Forall_subrange.
Qed.

(** The values a Vector constructed from numbers holds. *)
Lemma constructed_values (s : list number) (v : Vector.t) :
  Forall (fun x => is_double x = true) s ->
  constructor (List.map JsNumber s) = Ok v ->
  value v = List.map Spec.positive_zero s.
Proof.
  intros Hd Hv. rewrite constructor_numbers in Hv. injection Hv as <-.
  cbn [value]. now apply map_coerce_doubles.
Qed.

Lemma map_fixed {A : Type} (f : A -> A) (l : list A) :
  Forall (fun x => f x = x) l -> List.map f l = l.
Proof.
  intros H. rewrite <- (map_id l) at 2. apply map_ext_in. intros x Hx.
  rewrite Forall_forall in H. now apply H.
Qed.

Lemma constructed_fixed (s : list number) :
  Forall (fun x => Spec.positive_zero x = x) (List.map Spec.positive_zero s).
Proof.
  apply Forall_forall. intros x Hx. apply in_map_iff in Hx.
  destruct Hx as (n & <- & _). apply positive_zero_idem.
Qed.

(** X1.  Constructing again from the value of a constructed Vector reads
    every element back as it is stored, a [-0] (which only a string
    element can leave there) becoming [+0]; from a Vector constructed
    from numbers it returns the same Vector. *)
Theorem constructor_idempotent :
  (forall (s : list JsValue) (v : Vector.t),
      constructor s = Ok v ->
      constructor (List.map JsNumber (value v))
      = Ok {| value := List.map Spec.positive_zero (value v) |})
  /\ (forall (s : list number) (v : Vector.t),
         Forall (fun x => is_double x = true) s ->
         constructor (List.map JsNumber s) = Ok v ->
         constructor (List.map JsNumber (value v)) = Ok v).
Proof.
  split.
  - intros s v Hv. rewrite constructor_numbers. f_equal. f_equal.
    apply map_coerce_doubles. exact (constructor_doubles s v Hv).
  - intros s v Hd Hv.
    pose proof (constructor_doubles _ v Hv) as Hdv.
    rewrite constructor_numbers, (map_coerce_doubles _ Hdv).
    rewrite (constructed_values s v Hd Hv).
    rewrite (map_fixed _ _ (constructed_fixed s)).
    destruct v as [l]. f_equal. f_equal. symmetry.
    apply (constructed_values s {| value := l |} Hd Hv).
Qed.

Lemma constructor_idempotent_witness :
  let s := [neg_zero; of_decimal false 15 (-1); NaN] in
  let v := {| value := [pos_zero; of_decimal false 15 (-1); NaN] |} in
  Forall (fun x => is_double x = true) s
  /\ constructor (List.map JsNumber s) = Ok v
  /\ constructor (List.map JsNumber (value v)) = Ok v.
Proof.
  intros s v.
  assert (Hd : Forall (fun x => is_double x = true) s) by (repeat constructor).
  assert (Hv : constructor (List.map JsNumber s) = Ok v) by (vm_compute; reflexivity).
  split; [exact Hd |]. split; [exact Hv |].
  exact (proj2 constructor_idempotent s v Hd Hv).
Defined.

(** X2.  When every element is a boolean, a number, a string, an array
    of numbers or a Vector, the constructor returns a Vector.  When an
    element that is [undefined] or [null] comes after elements of those
    kinds only, the constructor raises the [TypeError] of reading
    [toString] on that element, whatever the elements after it are. *)
Theorem constructor_raises_at_first_nullish :
  (forall s : list JsValue,
      Forall (fun x => Input.has_toString x = true) s ->
      exists v, constructor s = Ok v)
  /\ (forall (pre post : list JsValue) (x : JsValue),
         Forall (fun x => Input.has_toString x = true) pre ->
         Input.nullish x = true ->
         exists message,
           call_toString x = Throw (TypeError message)
           /\ constructor (pre ++ x :: post)%list = Throw (TypeError message)).
Proof.
  assert (Hok : forall x, Input.has_toString x = true -> exists y, coerce x = Ok y).
  { intros x Hx. unfold coerce.
    destruct x; try discriminate Hx; eexists; reflexivity. }
  split.
  - intros s Hs. unfold constructor.
    assert (H : exists a, Arr.map_result coerce s = Ok a).
    { induction Hs as [| x t Hx _ IH]; [now exists [] |].
      destruct (Hok x Hx) as [y Hy]. destruct IH as [a Ha].
      exists (y :: a). cbn [Arr.map_result]. now rewrite Hy, Ha. }
    destruct H as [a Ha]. rewrite Ha. eexists. reflexivity.
  - intros pre post x Hpre Hx.
    assert (Hc : exists message, call_toString x = Throw (TypeError message)).
    { destruct x; try discriminate Hx; eexists; reflexivity. }
    destruct Hc as [message Hm]. exists message. split; [exact Hm |].
    unfold constructor.
    assert (H : Arr.map_result coerce (pre ++ x :: post)%list
                = Throw (TypeError message)).
    { induction Hpre as [| p t Hp _ IH]; cbn [app Arr.map_result].
      - unfold coerce at 1. rewrite Hm. reflexivity.
      - destruct (Hok p Hp) as [y Hy]. rewrite Hy. cbn [bind].
        now rewrite IH. }
    now rewrite H.
Qed.

Lemma constructor_raises_at_first_nullish_witness :
  Forall (fun x => Input.has_toString x = true)
    [JsNumber (of_Z 1); JsString "abc"]
  /\ Input.nullish JsUndefined = true
  /\ exists message,
       call_toString JsUndefined = Throw (TypeError message)
       /\ constructor [JsNumber (of_Z 1); JsString "abc"; JsUndefined; JsNull]
          = Throw (TypeError message).
Proof.
  assert (Hp : Forall (fun x => Input.has_toString x = true)
                 [JsNumber (of_Z 1); JsString "abc"]) by (repeat constructor).
  split; [exact Hp |]. split; [reflexivity |].
  exact (proj2 constructor_raises_at_first_nullish
           [JsNumber (of_Z 1); JsString "abc"] [JsNull] JsUndefined Hp eq_refl).
Defined.

(** X3.  Every element of a Vector returned by the constructor, whatever
    the input, or by [slice], is a binary64 value; and a Vector
    constructed from numbers holds no [-0]. *)
Theorem elements_are_binary64 :
  (forall (s : list JsValue) (v : Vector.t),
      constructor s = Ok v -> Forall (fun x => is_double x = true) (value v))
  /\ (forall (v v' : Vector.t) (start end_ : option number),
         slice v start end_ = Ok v' ->
         Forall (fun x => is_double x = true) (value v'))
  /\ (forall (s : list number) (v : Vector.t),
         Forall (fun x => is_double x = true) s ->
         constructor (List.map JsNumber s) = Ok v ->
         Forall (fun x => x <> neg_zero) (value v)).
Proof.
  split; [exact constructor_doubles |]. split.
  - intros v v' start end_ H. unfold slice in H.
    exact (constructor_doubles _ v' H).
  - intros s v Hd Hv. rewrite (constructed_values s v Hd Hv).
    apply Forall_forall. intros x Hx. apply in_map_iff in Hx.
    destruct Hx as (n & <- & _). destruct n; discriminate.
Qed.

Lemma elements_are_binary64_witness :
  let s := [JsString "-0"; JsString "1e400"; JsBoolean true; JsString "7.5x"] in
  let v := {| value := [neg_zero; Infinity; NaN; of_decimal false 75 (-1)] |} in
  constructor s = Ok v /\ Forall (fun x => is_double x = true) (value v).
Proof.
  intros s v.
  assert (Hv : constructor s = Ok v) by (vm_compute; reflexivity).
  split; [exact Hv |]. exact (proj1 elements_are_binary64 s v Hv).
Defined.

(** X4.  On every Vector and for all bounds, [slice] returns a Vector
    whose length is the distance from the clamped start to the clamped
    end (none when the end is not past the start), never more than the
    length of the receiver. *)
Theorem slice_length (v : Vector.t) (start end_ : option number) :
  let len := Z.of_nat (Vector.length v) in
  let lo := Spec.bound_of len 0 start in
  let hi := Spec.bound_of len len end_ in
  exists v', slice v start end_ = Ok v'
             /\ Z.of_nat (Vector.length v') = Z.max 0 (hi - lo)
             /\ (Vector.length v' <= Vector.length v)%nat.
Proof.
  intros len lo hi. rewrite slice_reads. fold len lo hi.
  eexists. split; [reflexivity |].
  assert (Hlo : 0 <= lo <= len) by (apply bound_of_range; unfold len; lia).
  assert (Hhi : 0 <= hi <= len) by (apply bound_of_range; unfold len; lia).
  assert (Hl : Z.of_nat (List.length (Spec.subrange (value v) lo hi))
               = Z.max 0 (hi - lo)).
  { apply length_subrange; [lia |]. unfold len, Vector.length in Hhi. lia. }
  unfold Vector.length in *. cbn [value]. rewrite length_map.
  split; [exact Hl | lia].
Qed.

(** [slice] on a Vector constructed from numbers: the sub-range itself. *)
Lemma slice_constructed (s : list number) (v : Vector.t)
    (start end_ : option number) :
  Forall (fun x => is_double x = true) s ->
  constructor (List.map JsNumber s) = Ok v ->
  let len := Z.of_nat (Vector.length v) in
  slice v start end_
  = Ok {| value := Spec.subrange (value v) (Spec.bound_of len 0 start)
                     (Spec.bound_of len len end_) |}.
Proof.
  intros Hd Hv len.
  rewrite slice_doubles by exact (constructor_doubles _ v Hv). fold len.
  f_equal. f_equal. apply map_fixed. apply Forall_subrange.
  rewrite (constructed_values s v Hd Hv). apply constructed_fixed.
Qed.

Lemma subrange_all {A : Type} (a : list A) :
  Spec.subrange a 0 (Z.of_nat (List.length a)) = a.
Proof.
  unfold Spec.subrange. rewrite Z.sub_0_r, Nat2Z.id. cbn [Z.to_nat skipn].
  apply firstn_all.
Qed.

(** X5.  On a Vector constructed from numbers, [slice()] returns an equal
    copy, and so do [slice(0, Infinity)] and [slice(NaN)]. *)
Theorem slice_without_bounds_copies (s : list number) (v : Vector.t) :
  Forall (fun x => is_double x = true) s ->
  constructor (List.map JsNumber s) = Ok v ->
  slice v None None = Ok v
  /\ slice v (Some pos_zero) (Some Infinity) = Ok v
  /\ slice v (Some NaN) None = Ok v.
Proof.
  intros Hd Hv.
  assert (H : forall start end_,
             Spec.bound_of (Z.of_nat (Vector.length v)) 0 start = 0 ->
             Spec.bound_of (Z.of_nat (Vector.length v))
               (Z.of_nat (Vector.length v)) end_ = Z.of_nat (Vector.length v) ->
             slice v start end_ = Ok v).
  { intros start end_ H0 H1. rewrite (slice_constructed s v start end_ Hd Hv).
    cbv zeta. rewrite H0, H1. unfold Vector.length. rewrite subrange_all.
    now destruct v. }
  split; [apply H; reflexivity |].
  split; apply H; try reflexivity.
  - unfold pos_zero, Spec.bound_of, ToIntegerOrInfinity, Spec.bound.
    change (0 <? 0) with false. cbv iota. lia.
  - unfold NaN, Spec.bound_of, ToIntegerOrInfinity, Spec.bound.
    change (0 <? 0) with false. cbv iota. lia.
Qed.

Lemma slice_without_bounds_copies_witness :
  let s := [of_Z 3; neg_zero; of_decimal true 25 (-1)] in
  let v := {| value := [of_Z 3; pos_zero; of_decimal true 25 (-1)] |} in
  Forall (fun x => is_double x = true) s
  /\ constructor (List.map JsNumber s) = Ok v
  /\ slice v None None = Ok v.
Proof.
  intros s v.
  assert (Hd : Forall (fun x => is_double x = true) s) by (repeat constructor).
  assert (Hv : constructor (List.map JsNumber s) = Ok v) by (vm_compute; reflexivity).
  split; [exact Hd |]. split; [exact Hv |].
  exact (proj1 (slice_without_bounds_copies s v Hd Hv)).
Defined.

(** X6.  A slice of a slice of a Vector constructed from numbers is the
    sub-range of the receiver at the added offsets: the second pair of
    bounds is clamped to the length of the first slice and counted from
    its start. *)
Theorem slice_of_slice (s : list number) (v : Vector.t)
    (start end_ start' end' : option number) :
  Forall (fun x => is_double x = true) s ->
  constructor (List.map JsNumber s) = Ok v ->
  let len := Z.of_nat (Vector.length v) in
  let lo := Spec.bound_of len 0 start in
  let hi := Spec.bound_of len len end_ in
  let len' := Z.max 0 (hi - lo) in
  let lo' := Spec.bound_of len' 0 start' in
  let hi' := Spec.bound_of len' len' end' in
  (w <- slice v start end_ ;; slice w start' end')
  = Ok {| value := Spec.subrange (value v) (lo + lo') (lo + hi') |}.
Proof.
  intros Hd Hv len lo hi len' lo' hi'.
  assert (Hlo : 0 <= lo <= len) by (apply bound_of_range; unfold len; lia).
  assert (Hhi : 0 <= hi <= len) by (apply bound_of_range; unfold len; lia).
  assert (Hlo' : 0 <= lo' <= len') by (apply bound_of_range; unfold len'; lia).
  assert (Hhi' : 0 <= hi' <= len') by (apply bound_of_range; unfold len'; lia).
  rewrite (slice_constructed s v start end_ Hd Hv). fold len lo hi. cbn [bind].
  assert (Hl : Z.of_nat (List.length (Spec.subrange (value v) lo hi)) = len').
  { apply length_subrange; [lia |]. unfold len, Vector.length in Hhi. lia. }
  rewrite slice_doubles.
  2:{ cbn [value]. apply Forall_subrange. exact (constructor_doubles _ v Hv). }
  unfold Vector.length at 1 2 3. cbn [value]. rewrite Hl. fold lo' hi'.
  f_equal. f_equal.
  rewrite map_fixed.
  2:{ do 2 apply Forall_subrange. rewrite (constructed_values s v Hd Hv).
      apply constructed_fixed. }
  apply nth_error_ext. intros i.
  rewrite (nth_error_subrange (Spec.subrange _ _ _)) by lia.
  rewrite (nth_error_subrange (value v) (lo + lo')) by lia.
  replace (lo + hi' - (lo + lo')) with (hi' - lo') by lia.
  destruct (Z.ltb_spec (Z.of_nat i) (hi' - lo')) as [Hi | Hi]; [| reflexivity].
  rewrite nth_error_subrange by lia.
  destruct (Z.ltb_spec (Z.of_nat (Z.to_nat lo' + i)) (hi - lo)); [| lia].
  f_equal. lia.
Qed.

Lemma slice_of_slice_witness :
  let s := [of_Z 1; of_Z 2; of_Z 3; of_Z 4; of_Z 5; of_Z 6] in
  let v := {| value := s |} in
  Forall (fun x => is_double x = true) s
  /\ constructor (List.map JsNumber s) = Ok v
  /\ (w <- slice v (Some (of_Z 1)) (Some (of_Z (-1))) ;;
      slice w (Some (of_Z 1)) None)
     = Ok {| value := [of_Z 3; of_Z 4; of_Z 5] |}.
Proof.
  intros s v.
  assert (Hd : Forall (fun x => is_double x = true) s) by (repeat constructor).
  assert (Hv : constructor (List.map JsNumber s) = Ok v) by (vm_compute; reflexivity).
  split; [exact Hd |]. split; [exact Hv |].
  rewrite (slice_of_slice s v (Some (of_Z 1)) (Some (of_Z (-1)))
             (Some (of_Z 1)) None Hd Hv).
  vm_compute. reflexivity.
Defined.

(** X7.  In a slice of a Vector [v] constructed from numbers, the element
    at index [i] is the element of [v] at the clamped start plus [i],
    and [undefined] from the length of the slice on. *)
Theorem get_of_slice (s : list number) (v w : Vector.t)
    (start end_ : option number) (i : Z) :
  Forall (fun x => is_double x = true) s ->
  constructor (List.map JsNumber s) = Ok v ->
  Z.of_nat (Vector.length v) < 2 ^ 53 ->
  slice v start end_ = Ok w ->
  0 <= i < 2 ^ 53 ->
  let len := Z.of_nat (Vector.length v) in
  let lo := Spec.bound_of len 0 start in
  let hi := Spec.bound_of len len end_ in
  get w (of_Z i) = if i <? hi - lo then get v (of_Z (lo + i)) else JsUndefined.
Proof.
  intros Hd Hv Hlen Hw Hi len lo hi.
  assert (Hlo : 0 <= lo <= len) by (apply bound_of_range; unfold len; lia).
  assert (Hhi : 0 <= hi <= len) by (apply bound_of_range; unfold len; lia).
  rewrite (slice_constructed s v start end_ Hd Hv) in Hw. fold len lo hi in Hw.
  injection Hw as <-.
  rewrite (get_at _ (of_Z i) (Z.to_nat i))
    by (rewrite Z2Nat.id by lia; apply integer_key_of_Z; lia).
  cbn [value]. rewrite nth_error_subrange by lia. rewrite Z2Nat.id by lia.
  destruct (Z.ltb_spec i (hi - lo)) as [H | H]; [| reflexivity].
  rewrite (get_at _ (of_Z (lo + i)) (Z.to_nat lo + Z.to_nat i)).
  - reflexivity.
  - rewrite Nat2Z.inj_add, !Z2Nat.id by lia. apply integer_key_of_Z.
    fold len in Hlen. lia.
Qed.

Lemma get_of_slice_witness :
  let s := [of_Z 1; of_Z 2; of_Z 3; of_Z 4; of_Z 5] in
  let v := {| value := s |} in
  let w := {| value := [of_Z 3; of_Z 4] |} in
  Forall (fun x => is_double x = true) s
  /\ constructor (List.map JsNumber s) = Ok v
  /\ slice v (Some (of_Z (-3))) (Some (of_Z 4)) = Ok w
  /\ get w (of_Z 1) = get v (of_Z 3).
Proof.
  intros s v w.
  assert (Hd : Forall (fun x => is_double x = true) s) by (repeat constructor).
  assert (Hv : constructor (List.map JsNumber s) = Ok v) by (vm_compute; reflexivity).
  assert (Hw : slice v (Some (of_Z (-3))) (Some (of_Z 4)) = Ok w)
    by (vm_compute; reflexivity).
  split; [exact Hd |]. split; [exact Hv |]. split; [exact Hw |].
  assert (Hlen : Z.of_nat (Vector.length v) < 2 ^ 53) by (vm_compute; reflexivity).
  assert (Hi : 0 <= 1 < 2 ^ 53) by (split; [lia | reflexivity]).
  rewrite (get_of_slice s v w (Some (of_Z (-3))) (Some (of_Z 4)) 1 Hd Hv Hlen Hw Hi).
  vm_compute. reflexivity.
Defined.

Lemma Number_toString_positive_zero (x : number) :
  Number_toString (Spec.positive_zero x) = Number_toString x.
Proof. destruct x; reflexivity. Qed.

Lemma join_positive_zero (sep : string) (a : list number) :
  Arr.join sep (List.map Spec.positive_zero a) = Arr.join sep a.
Proof.
  induction a as [| x t IH]; [reflexivity |].
  destruct t as [| y t'].
  - cbn [List.map Arr.join]. apply Number_toString_positive_zero.
  - change (Arr.join sep (List.map Spec.positive_zero (x :: y :: t')))
      with (Number_toString (Spec.positive_zero x) ++ sep
            ++ Arr.join sep (List.map Spec.positive_zero (y :: t'))).
    rewrite IH, Number_toString_positive_zero. reflexivity.
Qed.

(** X8.  The text of a Vector constructed from numbers shows the numbers
    as they were given: [Vector<], the texts of the input numbers
    separated by a comma and a space, and [>]. *)
Theorem toString_of_constructed (s : list number) (v : Vector.t) :
  Forall (fun x => is_double x = true) s ->
  constructor (List.map JsNumber s) = Ok v ->
  toString v = "Vector<" ++ Arr.join ", " s ++ ">".
Proof.
  intros Hd Hv. unfold toString. rewrite (constructed_values s v Hd Hv).
  now rewrite join_positive_zero.
Qed.

Lemma toString_of_constructed_witness :
  let s := [of_Z 1; neg_zero; of_decimal false 1 21; NaN] in
  let v := {| value := [of_Z 1; pos_zero; of_decimal false 1 21; NaN] |} in
  Forall (fun x => is_double x = true) s
  /\ constructor (List.map JsNumber s) = Ok v
  /\ toString v = "Vector<1, 0, 1e+21, NaN>".
Proof.
  intros s v.
  assert (Hd : Forall (fun x => is_double x = true) s) by (repeat constructor).
  assert (Hv : constructor (List.map JsNumber s) = Ok v) by (vm_compute; reflexivity).
  split; [exact Hd |]. split; [exact Hv |].
  rewrite (toString_of_constructed s v Hd Hv). vm_compute. reflexivity.
Defined.

Lemma elementwise_trans (a b c : list number) :
  Spec.elementwise a b -> Spec.elementwise b c -> Spec.elementwise a c.
Proof.
  intros [Hl1 H1] [Hl2 H2]. split; [congruence |].
  intros i x z Hx Hz.
  destruct (nth_error b i) as [y |] eqn:Hy.
  - specialize (H1 i x y Hx Hy). specialize (H2 i y z Hy Hz).
    apply strict_eq_iff in H1. apply strict_eq_iff in H2. apply strict_eq_iff.
    destruct H1 as [E1 N1]. destruct H2 as [E2 _]. split; [congruence | exact N1].
  - apply nth_error_None in Hy.
    assert (i < List.length a)%nat by (apply nth_error_Some; congruence). lia.
Qed.

(** X10.  [equals] is transitive: if [v1] equals [v2] and [v2] equals
    [v3], then [v1] equals [v3]. *)
Theorem equals_transitive (v1 v2 v3 : Vector.t) :
  equals v1 (JsVector v2) = Ok true ->
  equals v2 (JsVector v3) = Ok true ->
  equals v1 (JsVector v3) = Ok true.
Proof.
  rewrite !equals_true_iff. apply elementwise_trans.
Qed.

Lemma equals_transitive_witness :
  let v1 := {| value := [pos_zero; of_Z 2] |} in
  let v2 := {| value := [neg_zero; of_Z 2] |} in
  let v3 := {| value := [pos_zero; of_Z 2] |} in
  equals v1 (JsVector v2) = Ok true
  /\ equals v2 (JsVector v3) = Ok true
  /\ equals v1 (JsVector v3) = Ok true.
Proof.
  intros v1 v2 v3.
  assert (H12 : equals v1 (JsVector v2) = Ok true) by (vm_compute; reflexivity).
  assert (H23 : equals v2 (JsVector v3) = Ok true) by (vm_compute; reflexivity).
  split; [exact H12 |]. split; [exact H23 |].
  exact (equals_transitive v1 v2 v3 H12 H23).
Defined.

Lemma elementwise_fixed (a b : list number) :
  Forall (fun x => Spec.positive_zero x = x) a ->
  Forall (fun x => Spec.positive_zero x = x) b ->
  (Spec.elementwise a b <-> a = b /\ existsb isNaN a = false).
Proof.
  intros Ha Hb. rewrite Forall_forall in Ha, Hb. split.
  - intros [Hl He]. split.
    + apply nth_error_ext. intros i.
      destruct (nth_error a i) as [x |] eqn:Hx.
      * destruct (nth_error b i) as [y |] eqn:Hy.
        -- specialize (He i x y Hx Hy). apply strict_eq_iff in He.
           destruct He as [E _].
           rewrite (Ha x (nth_error_In _ _ Hx)) in E.
           rewrite (Hb y (nth_error_In _ _ Hy)) in E. now subst.
        -- apply nth_error_None in Hy.
           assert (i < List.length a)%nat by (apply nth_error_Some; congruence). lia.
      * symmetry. apply nth_error_None. apply nth_error_None in Hx. lia.
    + destruct (existsb isNaN a) eqn:Ex; [| reflexivity].
      apply existsb_exists in Ex. destruct Ex as (x & Hin & Hn).
      apply In_nth_error in Hin. destruct Hin as [i Hx].
      destruct (nth_error b i) as [y |] eqn:Hy.
      * specialize (He i x y Hx Hy). apply strict_eq_iff in He.
        destruct He as [_ N]. congruence.
      * apply nth_error_None in Hy.
        assert (i < List.length a)%nat by (apply nth_error_Some; congruence). lia.
  - intros [<- Hn]. split; [reflexivity |].
    intros i x y Hx Hy. rewrite Hx in Hy. injection Hy as <-.
    apply strict_eq_iff. split; [reflexivity |].
    destruct (isNaN x) eqn:N; [| reflexivity].
    assert (existsb isNaN a = true).
    { apply existsb_exists. exists x. split; [eapply nth_error_In; exact Hx | exact N]. }
    congruence.
Qed.

(** X11.  On Vectors constructed from numbers, [equals] returns [true]
    exactly when the two hold the same value and no element is
    not-a-number; two such equal Vectors have the same wire format and
    the same text. *)
Theorem equals_of_constructed (s1 s2 : list number) (v1 v2 : Vector.t) :
  Forall (fun x => is_double x = true) s1 ->
  Forall (fun x => is_double x = true) s2 ->
  constructor (List.map JsNumber s1) = Ok v1 ->
  constructor (List.map JsNumber s2) = Ok v2 ->
  (equals v1 (JsVector v2) = Ok true
   <-> v1 = v2 /\ existsb isNaN (value v1) = false)
  /\ (equals v1 (JsVector v2) = Ok true ->
      _toDict v1 = _toDict v2 /\ toString v1 = toString v2).
Proof.
  intros Hd1 Hd2 Hv1 Hv2.
  assert (Hiff : equals v1 (JsVector v2) = Ok true
                 <-> v1 = v2 /\ existsb isNaN (value v1) = false).
  { rewrite equals_true_iff, elementwise_fixed.
    - destruct v1 as [l1], v2 as [l2]. cbn [value].
      split; intros [H N]; (split; [congruence | exact N]).
    - rewrite (constructed_values s1 v1 Hd1 Hv1). apply constructed_fixed.
    - rewrite (constructed_values s2 v2 Hd2 Hv2). apply constructed_fixed. }
  split; [exact Hiff |].
  intros H. apply Hiff in H. destruct H as [<- _]. split; reflexivity.
Qed.

Lemma equals_of_constructed_witness :
  let s1 := [neg_zero; of_Z 2] in
  let s2 := [pos_zero; of_Z 2] in
  let v := {| value := [pos_zero; of_Z 2] |} in
  Forall (fun x => is_double x = true) s1
  /\ Forall (fun x => is_double x = true) s2
  /\ constructor (List.map JsNumber s1) = Ok v
  /\ constructor (List.map JsNumber s2) = Ok v
  /\ (equals v (JsVector v) = Ok true
      <-> v = v /\ existsb isNaN (value v) = false).
Proof.
  intros s1 s2 v.
  assert (Hd1 : Forall (fun x => is_double x = true) s1) by (repeat constructor).
  assert (Hd2 : Forall (fun x => is_double x = true) s2) by (repeat constructor).
  assert (Hv1 : constructor (List.map JsNumber s1) = Ok v) by (vm_compute; reflexivity).
  assert (Hv2 : constructor (List.map JsNumber s2) = Ok v) by (vm_compute; reflexivity).
  split; [exact Hd1 |]. split; [exact Hd2 |]. split; [exact Hv1 |].
  split; [exact Hv2 |].
  exact (proj1 (equals_of_constructed s1 s2 v v Hd1 Hd2 Hv1 Hv2)).
Defined.

(** X12.  The wire format determines the Vector: the [double_value]s of
    [_toDict] are the elements in order, so two Vectors with the same
    wire format are the same. *)
Theorem toDict_determines_vector :
  (forall v : Vector.t,
      List.map double_value (values (array_value (_toDict v))) = value v)
  /\ (forall v1 v2 : Vector.t, _toDict v1 = _toDict v2 -> v1 = v2).
Proof.
  assert (H : forall v : Vector.t,
             List.map double_value (values (array_value (_toDict v))) = value v).
  { intros v. cbn [_toDict array_value values]. rewrite map_map.
    cbn [double_value]. apply map_id. }
  split; [exact H |].
  intros [l1] [l2] E. f_equal.
  pose proof (H {| value := l1 |}) as H1. pose proof (H {| value := l2 |}) as H2.
  rewrite E in H1. cbn [value] in H1, H2. congruence.
Qed.

Lemma toDict_determines_vector_witness :
  let v1 := {| value := [of_Z 1; NaN] |} in
  let v2 := {| value := List.map Spec.positive_zero [of_Z 1; NaN] |} in
  _toDict v1 = _toDict v2 /\ v1 = v2.
Proof.
  intros v1 v2.
  assert (E : _toDict v1 = _toDict v2) by (vm_compute; reflexivity).
  split; [exact E |]. exact (proj2 toDict_determines_vector v1 v2 E).
Defined.

Lemma strict_eq_positive_zero (x y : number) :
  strict_eq x y = true ->
  strict_eq (Spec.positive_zero x) (Spec.positive_zero y) = true.
Proof.
  intros H. apply strict_eq_iff in H. destruct H as [E N]. apply strict_eq_iff.
  split; [now rewrite E | destruct x; try reflexivity; discriminate N].
Qed.

(** X15.  [equals] is kept by [slice]: when two constructed Vectors are
    equal, their slices between the same bounds are equal. *)
Theorem equals_slices (s1 s2 : list JsValue) (v1 v2 : Vector.t)
    (start end_ : option number) :
  constructor s1 = Ok v1 ->
  constructor s2 = Ok v2 ->
  equals v1 (JsVector v2) = Ok true ->
  (w1 <- slice v1 start end_ ;; w2 <- slice v2 start end_ ;;
   equals w1 (JsVector w2)) = Ok true.
Proof.
  intros Hv1 Hv2 He.
  rewrite (slice_doubles v1 start end_ (constructor_doubles _ _ Hv1)).
  rewrite (slice_doubles v2 start end_ (constructor_doubles _ _ Hv2)).
  cbn [bind]. apply equals_true_iff in He. destruct He as [Hl He].
  unfold Vector.length. rewrite <- Hl.
  set (len := Z.of_nat (List.length (value v1))).
  set (lo := Spec.bound_of len 0 start). set (hi := Spec.bound_of len len end_).
  assert (Hlo : 0 <= lo <= len) by (apply bound_of_range; unfold len; lia).
  assert (Hhi : 0 <= hi <= len) by (apply bound_of_range; unfold len; lia).
  apply equals_true_iff. cbn [value]. split.
  - rewrite !length_map. apply Nat2Z.inj.
    rewrite !length_subrange; unfold len in *; lia.
  - intros i x y Hx Hy.
    rewrite nth_error_map, nth_error_subrange in Hx, Hy by lia.
    destruct (Z.of_nat i <? hi - lo); [| discriminate Hx].
    destruct (nth_error (value v1) (Z.to_nat lo + i)) as [x' |] eqn:Hx';
      [| discriminate Hx].
    destruct (nth_error (value v2) (Z.to_nat lo + i)) as [y' |] eqn:Hy';
      [| discriminate Hy].
    cbn [option_map] in Hx, Hy. injection Hx as <-. injection Hy as <-.
    apply strict_eq_positive_zero. exact (He _ x' y' Hx' Hy').
Qed.

Lemma equals_slices_witness :
  let s1 := [JsString "-0"; JsNumber (of_Z 2); JsNumber (of_Z 3)] in
  let s2 := [JsNumber pos_zero; JsString "2"; JsString "3px"] in
  let v1 := {| value := [neg_zero; of_Z 2; of_Z 3] |} in
  let v2 := {| value := [pos_zero; of_Z 2; of_Z 3] |} in
  constructor s1 = Ok v1
  /\ constructor s2 = Ok v2
  /\ equals v1 (JsVector v2) = Ok true
  /\ (w1 <- slice v1 None (Some (of_Z 2)) ;; w2 <- slice v2 None (Some (of_Z 2)) ;;
      equals w1 (JsVector w2)) = Ok true.
Proof.
  intros s1 s2 v1 v2.
  assert (Hv1 : constructor s1 = Ok v1) by (vm_compute; reflexivity).
  assert (Hv2 : constructor s2 = Ok v2) by (vm_compute; reflexivity).
  assert (He : equals v1 (JsVector v2) = Ok true) by (vm_compute; reflexivity).
  split; [exact Hv1 |]. split; [exact Hv2 |]. split; [exact He |].
  exact (equals_slices s1 s2 v1 v2 None (Some (of_Z 2)) Hv1 Hv2 He).
Defined.

(** X13.  In the store, [new Vector] returns a new instance holding a
    new array and leaves every object as it was; when the constructor
    raises, the store is the one it was given.  The instance [slice]
    returns holds a new array, not the array of the receiver. *)
Theorem new_instances_own_fresh_arrays (h : Heap.heap) :
  (forall (s : list JsValue),
      match constructor s with
      | Ok v =>
          exists h' r a,
            Heap.new h s = (h', Ok r)
            /\ Heap.lookup h r = None
            /\ Heap.lookup h' r = Some (Heap.VectorObject a)
            /\ Heap.lookup h a = None
            /\ Heap.read h' r = Some (value v)
            /\ (forall q o, Heap.lookup h q = Some o -> Heap.lookup h' q = Some o)
      | Throw e => Heap.new h s = (h, Throw e)
      end)
  /\ (forall (this : Heap.ref) (l : list number) (start end_ : option number)
             (h' : Heap.heap) (r : Heap.ref),
         Heap.read h this = Some l ->
         Heap.slice h this start end_ = Some (h', Ok r) ->
         exists a a0,
           Heap.lookup h' r = Some (Heap.VectorObject a)
           /\ Heap.lookup h this = Some (Heap.VectorObject a0)
           /\ a <> a0
           /\ Heap.lookup h a = None).
Proof.
  assert (Hnew : forall (h0 : Heap.heap) (a : list number),
             let h1 := (h0 ++ [Heap.ArrayObject a])%list in
             let h2 := (h1 ++ [Heap.VectorObject (List.length h0)])%list in
             Heap.lookup h0 (List.length h1) = None
             /\ Heap.lookup h2 (List.length h1)
                = Some (Heap.VectorObject (List.length h0))
             /\ Heap.lookup h0 (List.length h0) = None
             /\ Heap.read h2 (List.length h1) = Some a
             /\ (forall q o, Heap.lookup h0 q = Some o -> Heap.lookup h2 q = Some o)).
  { intros h0 a h1 h2.
    assert (Hl1 : List.length h1 = S (List.length h0)).
    { unfold h1. rewrite length_app. cbn [List.length]. lia. }
    split; [apply nth_error_None; lia |].
    split; [apply lookup_new |].
    split; [apply nth_error_None; lia |].
    split.
    - unfold Heap.read. unfold h2 at 1. rewrite lookup_new.
      unfold Heap.read_array, h2.
      rewrite (lookup_app h1 _ (List.length h0) (Heap.ArrayObject a));
        [reflexivity | apply lookup_new].
    - intros q o Hq. unfold h2, h1. now do 2 apply lookup_app. }
  split.
  - intros s. unfold constructor, Heap.new.
    destruct (Arr.map_result coerce s) as [a | e]; cbn [bind]; [| reflexivity].
    cbn [Heap.alloc value].
    destruct (Hnew h a) as (H1 & H2 & H3 & H4 & H5).
    exists ((h ++ [Heap.ArrayObject a]) ++ [Heap.VectorObject (List.length h)])%list,
      (List.length (h ++ [Heap.ArrayObject a])%list), (List.length h).
    repeat split; assumption.
  - intros this l start end_ h' r Hr Hs. unfold Heap.slice in Hs. rewrite Hr in Hs.
    cbn [Heap.alloc] in Hs.
    set (sl := Arr.slice l start end_) in Hs.
    set (h1 := (h ++ [Heap.ArrayObject sl])%list) in Hs.
    unfold Heap.read_array in Hs. unfold h1 at 1 in Hs. rewrite lookup_new in Hs.
    unfold Heap.new in Hs. rewrite map_result_numbers in Hs.
    cbn [Heap.alloc] in Hs. injection Hs as <- <-.
    set (a := List.map (fun n => parseFloat (Number_toString n)) sl).
    destruct (Hnew h1 a) as (_ & H2 & _ & _ & _).
    unfold Heap.read in Hr.
    destruct (Heap.lookup h this) as [[a0' | a0] |] eqn:Ht; try discriminate Hr.
    exists (List.length h1), a0.
    assert (Hl1 : List.length h1 = S (List.length h)).
    { unfold h1. rewrite length_app. cbn [List.length]. lia. }
    assert (Ha0 : (a0 < List.length h)%nat).
    { unfold Heap.read_array in Hr.
      destruct (Heap.lookup h a0) eqn:E; [| discriminate Hr].
      apply nth_error_Some. unfold Heap.lookup in E. congruence. }
    split; [exact H2 |]. split; [reflexivity |]. split; [lia |].
    apply nth_error_None. lia.
Qed.

Lemma new_instances_own_fresh_arrays_witness :
  let h := [Heap.ArrayObject [of_Z 1; of_Z 2; of_Z 3]; Heap.VectorObject 0%nat] in
  Heap.read h 1%nat = Some [of_Z 1; of_Z 2; of_Z 3]
  /\ exists h' r a a0,
       Heap.slice h 1%nat (Some (of_Z 1)) None = Some (h', Ok r)
       /\ Heap.lookup h' r = Some (Heap.VectorObject a)
       /\ Heap.lookup h 1%nat = Some (Heap.VectorObject a0)
       /\ a <> a0
       /\ Heap.lookup h a = None.
Proof.
  intros h.
  assert (Hr : Heap.read h 1%nat = Some [of_Z 1; of_Z 2; of_Z 3]) by reflexivity.
  split; [exact Hr |].
  eexists. eexists.
  assert (Hs : Heap.slice h 1%nat (Some (of_Z 1)) None
               = Some (h ++ [Heap.ArrayObject [of_Z 2; of_Z 3];
                             Heap.ArrayObject [of_Z 2; of_Z 3];
                             Heap.VectorObject 3%nat], Ok 4%nat)%list)
    by (vm_compute; reflexivity).
  destruct (proj2 (new_instances_own_fresh_arrays h) 1%nat _ _ _ _ _ Hr Hs)
    as (a & a0 & H).
  exists a, a0. split; [exact Hs | exact H].
Defined.

Lemma comma_free_app (a b : string) :
  Text.comma_free (a ++ b) = Text.comma_free a && Text.comma_free b.
Proof.
  induction a as [| c a IH]; [reflexivity |].
  cbn [append Text.comma_free]. now rewrite IH, andb_assoc.
Qed.

Lemma is_digit_no_comma (c : ascii) :
  is_digit c = true -> Ascii.eqb c "," = false.
Proof.
  destruct c as [[] [] [] [] [] [] [] []]; vm_compute; intros H;
    try discriminate H; reflexivity.
Qed.

Lemma comma_free_digits (k : nat) : forall s, Text.comma_free (digits k s) = true.
Proof.
  induction k as [| k IH]; intros s; [reflexivity |].
  cbn [digits]. rewrite comma_free_app, IH. cbn [Text.comma_free andb].
  rewrite is_digit_no_comma; [reflexivity |].
  apply digit_char_ok. pose proof (Z.mod_pos_bound s 10). lia.
Qed.

Lemma comma_free_zeros (j : nat) : Text.comma_free (zeros j) = true.
Proof. induction j as [| j IH]; [reflexivity | exact IH]. Qed.

Lemma comma_free_exponent_text (e : Z) : Text.comma_free (exponent_text e) = true.
Proof.
  unfold exponent_text, Z_to_decimal.
  rewrite !comma_free_app, comma_free_digits. now destruct (e <? 0).
Qed.

Lemma comma_free_format_decimal (k : nat) (n s : Z) :
  Text.comma_free (format_decimal k n s) = true.
Proof.
  unfold format_decimal.
  repeat match goal with
         | |- context [if ?b then _ else _] => destruct b
         end;
    rewrite ?comma_free_app, ?comma_free_digits, ?comma_free_zeros,
      ?comma_free_exponent_text; reflexivity.
Qed.

Lemma comma_free_Number_toString (x : number) :
  Text.comma_free (Number_toString x) = true.
Proof.
  destruct x as [s | s | | s m e]; try reflexivity.
  - destruct s; reflexivity.
  - cbn [Number_toString]. destruct (decimal_digits m e) as [[k n] d].
    rewrite comma_free_app, comma_free_format_decimal. now destruct s.
Qed.

Lemma Number_toString_nonempty (x : number) :
  is_double x = true -> Number_toString x <> "".
Proof.
  intros Hx. destruct x as [s | s | | s m e]; try discriminate.
  - destruct s; discriminate.
  - cbn [Number_toString]. destruct (decimal_digits m e) as [[k n] d] eqn:D.
    destruct (decimal_digits_sound m e Hx k n d D) as (Hk & _).
    destruct (format_decimal_head k n d Hk) as (c & r & Heq & _).
    rewrite Heq. destruct s; discriminate.
Qed.

(** Two comma-free texts followed by a comma end at the same place. *)
Lemma split_at_comma (a : string) :
  forall b r1 r2,
    Text.comma_free a = true -> Text.comma_free b = true ->
    a ++ String "," r1 = b ++ String "," r2 -> a = b /\ r1 = r2.
Proof.
  induction a as [| c a IH]; intros [| d b] r1 r2 Ha Hb H; cbn [append] in H.
  - injection H as ->. split; reflexivity.
  - injection H as <- _. discriminate Hb.
  - injection H as -> _. discriminate Ha.
  - injection H as -> H. cbn [Text.comma_free] in Ha, Hb.
    apply andb_true_iff in Ha, Hb.
    destruct (IH b r1 r2 (proj2 Ha) (proj2 Hb) H) as [-> ->]. split; reflexivity.
Qed.

Lemma join_cons2 (sep : string) (x y : number) (t : list number) :
  Arr.join sep (x :: y :: t) = Number_toString x ++ sep ++ Arr.join sep (y :: t).
Proof. reflexivity. Qed.

(** [join] keeps the elements apart: equal texts have equal parts. *)
Lemma join_parts (a : list number) :
  forall b,
    Forall (fun x => is_double x = true) a ->
    Forall (fun x => is_double x = true) b ->
    Arr.join ", " a = Arr.join ", " b ->
    List.map Number_toString a = List.map Number_toString b.
Proof.
  induction a as [| x t IH]; intros b Ha Hb H.
  - destruct b as [| y t']; [reflexivity |]. exfalso.
    inversion Hb as [| ? ? Hy _]; subst.
    destruct t' as [| y' t'']; [| rewrite join_cons2 in H];
      cbn [Arr.join] in H; symmetry in H.
    + exact (Number_toString_nonempty y Hy H).
    + destruct (Number_toString y) eqn:E; [| discriminate H].
      exact (Number_toString_nonempty y Hy E).
  - inversion Ha as [| ? ? Hx Ht]; subst.
    destruct b as [| y t'].
    + exfalso. destruct t as [| x' t'']; [| rewrite join_cons2 in H];
        cbn [Arr.join] in H.
      * exact (Number_toString_nonempty x Hx H).
      * destruct (Number_toString x) eqn:E; [| discriminate H].
        exact (Number_toString_nonempty x Hx E).
    + inversion Hb as [| ? ? Hy Ht']; subst.
      destruct t as [| x' t'']; destruct t' as [| y' t'''].
      * cbn [Arr.join] in H. cbn [List.map]. now rewrite H.
      * exfalso. rewrite join_cons2 in H.
        change (Arr.join ", " [x]) with (Number_toString x) in H.
        pose proof (comma_free_Number_toString x) as Hc.
        rewrite H, comma_free_app in Hc. cbn [append Text.comma_free] in Hc.
        change (Ascii.eqb "," ",") with true in Hc. cbn [negb andb] in Hc.
        now rewrite andb_false_r in Hc.
      * exfalso. rewrite join_cons2 in H.
        change (Arr.join ", " [y]) with (Number_toString y) in H.
        pose proof (comma_free_Number_toString y) as Hc.
        rewrite <- H, comma_free_app in Hc. cbn [append Text.comma_free] in Hc.
        change (Ascii.eqb "," ",") with true in Hc. cbn [negb andb] in Hc.
        now rewrite andb_false_r in Hc.
      * rewrite !join_cons2 in H. cbn [append] in H.
        destruct (split_at_comma _ _ _ _ (comma_free_Number_toString x)
                    (comma_free_Number_toString y) H) as [E1 E2].
        injection E2 as E2.
        cbn [List.map]. rewrite E1. f_equal.
        exact (IH (y' :: t''') Ht Ht' E2).
Qed.

Lemma append_cancel_r (c : string) (a : string) :
  forall b, a ++ c = b ++ c -> a = b.
Proof.
  assert (Hlen : forall u w, String.length (u ++ w)
                             = (String.length u + String.length w)%nat).
  { intros u w. induction u as [| x u IHu]; [reflexivity |].
    cbn [append String.length]. now rewrite IHu. }
  induction a as [| x a IH]; intros [| y b] H; cbn [append] in H.
  - reflexivity.
  - exfalso. apply (f_equal String.length) in H.
    cbn [String.length] in H. rewrite Hlen in H. lia.
  - exfalso. apply (f_equal String.length) in H.
    cbn [String.length] in H. rewrite Hlen in H. lia.
  - injection H as -> H. f_equal. now apply IH.
Qed.

Lemma Number_toString_injective (x y : number) :
  is_double x = true -> is_double y = true ->
  Number_toString x = Number_toString y ->
  Spec.positive_zero x = Spec.positive_zero y.
Proof.
  intros Hx Hy H.
  rewrite <- (parseFloat_Number_toString x Hx), <- (parseFloat_Number_toString y Hy).
  now rewrite H.
Qed.

(** X9.  Two Vectors constructed from numbers that have the same text
    are the same Vector: [toString] loses nothing of the stored value. *)
Theorem toString_determines_constructed (s1 s2 : list number) (v1 v2 : Vector.t) :
  Forall (fun x => is_double x = true) s1 ->
  Forall (fun x => is_double x = true) s2 ->
  constructor (List.map JsNumber s1) = Ok v1 ->
  constructor (List.map JsNumber s2) = Ok v2 ->
  toString v1 = toString v2 ->
  v1 = v2.
Proof.
  intros Hd1 Hd2 Hv1 Hv2 H. unfold toString in H.
  cbn [append] in H. repeat injection H as H.
  apply append_cancel_r in H.
  pose proof (constructor_doubles _ _ Hv1) as Hb1.
  pose proof (constructor_doubles _ _ Hv2) as Hb2.
  apply join_parts in H; [| assumption | assumption].
  pose proof (constructed_values s1 v1 Hd1 Hv1) as E1.
  pose proof (constructed_values s2 v2 Hd2 Hv2) as E2.
  destruct v1 as [l1], v2 as [l2]. cbn [value] in *. f_equal.
  assert (F1 : Forall (fun x => Spec.positive_zero x = x) l1)
    by (rewrite E1; apply constructed_fixed).
  assert (F2 : Forall (fun x => Spec.positive_zero x = x) l2)
    by (rewrite E2; apply constructed_fixed).
  clear E1 E2 Hv1 Hv2. revert l2 H Hb2 F2.
  induction l1 as [| x t IH]; intros [| y t'] H Hb2 F2;
    cbn [List.map] in H; try discriminate H; [reflexivity |].
  injection H as Hxy Ht.
  inversion Hb1 as [| ? ? Hx Hbt]; subst. inversion Hb2 as [| ? ? Hy Hbt']; subst.
  inversion F1 as [| ? ? Fx Ft]; subst. inversion F2 as [| ? ? Fy Ft']; subst.
  f_equal.
  - pose proof (Number_toString_injective x y Hx Hy Hxy) as E. congruence.
  - now apply IH.
Qed.

Lemma toString_determines_constructed_witness :
  let s1 := [neg_zero; of_decimal false 1 (-1)] in
  let s2 := [pos_zero; of_decimal false 1 (-1)] in
  let v := {| value := [pos_zero; of_decimal false 1 (-1)] |} in
  Forall (fun x => is_double x = true) s1
  /\ Forall (fun x => is_double x = true) s2
  /\ constructor (List.map JsNumber s1) = Ok v
  /\ constructor (List.map JsNumber s2) = Ok v
  /\ toString v = toString v
  /\ v = v.
Proof.
  intros s1 s2 v.
  assert (Hd1 : Forall (fun x => is_double x = true) s1) by (repeat constructor).
  assert (Hd2 : Forall (fun x => is_double x = true) s2) by (repeat constructor).
  assert (Hv1 : constructor (List.map JsNumber s1) = Ok v) by (vm_compute; reflexivity).
  assert (Hv2 : constructor (List.map JsNumber s2) = Ok v) by (vm_compute; reflexivity).
  split; [exact Hd1 |]. split; [exact Hd2 |]. split; [exact Hv1 |].
  split; [exact Hv2 |]. split; [reflexivity |].
  exact (toString_determines_constructed s1 s2 v v Hd1 Hd2 Hv1 Hv2 eq_refl).
Defined.

(** The number of a positive integer below [2^53] is that integer,
    written with a 53-bit mantissa. *)
Lemma of_decimal_integer (sign : bool) (i : Z) :
  0 < i < 2 ^ 53 ->
  exists (m : positive) (sh : Z),
    0 <= sh /\ Zpos m = i * 2 ^ sh
    /\ of_decimal sign i 0 = S754_finite sign m (- sh).
Proof.
  intros Hi.
  set (L := Z.log2 i).
  assert (HL : 0 <= L < 53).
  { split; [apply Z.log2_nonneg | apply Z.log2_lt_pow2; lia]. }
  set (sh := 52 - L).
  assert (Hsh : 0 < 2 ^ sh) by (apply Z.pow_pos_nonneg; lia).
  assert (Hm : 0 < i * 2 ^ sh) by nia.
  exists (Z.to_pos (i * 2 ^ sh)), sh.
  rewrite Z2Pos.id by exact Hm.
  split; [lia |]. split; [reflexivity |].
  assert (Hlm : Z.log2 (i * 2 ^ sh) = 52).
  { rewrite Z.log2_mul_pow2 by lia. unfold sh, L. lia. }
  assert (Hb : bounded prec emax (Z.to_pos (i * 2 ^ sh)) (- sh) = true).
  { unfold bounded, canonical_mantissa. rewrite digits2_pos_log2.
    rewrite Z2Pos.id by exact Hm. rewrite Hlm.
    apply andb_true_iff. split; [apply Z.eqb_eq | apply Z.leb_le].
    - unfold fexp, SpecFloat.emin, prec, emax. lia.
    - unfold prec, emax. lia. }
  unfold of_decimal. destruct (Z.eqb_spec i 0); [lia |].
  change (0 <=? 0) with true. cbv iota. rewrite Z.pow_0_r, Z.mul_1_r.
  apply round_ratio_exact; [lia | lia | exact Hb |].
  rewrite Z2Pos.id by exact Hm. rewrite Z.opp_involutive.
  rewrite Z.max_r by lia. rewrite Z.max_l by lia.
  rewrite Z.pow_0_r. ring.
Qed.

Lemma ToIntegerOrInfinity_of_Z (z : Z) :
  - 2 ^ 53 < z < 2 ^ 53 -> ToIntegerOrInfinity (of_Z z) = Int z.
Proof.
  intros Hz. destruct (Z.eq_dec z 0) as [-> | Hnz]; [reflexivity |].
  unfold of_Z.
  destruct (of_decimal_integer (z <? 0) (Z.abs z)) as (m & sh & Hsh & Hm & ->);
    [lia |].
  cbn [ToIntegerOrInfinity]. rewrite Z.opp_involutive, Hm.
  assert (H2 : 0 < 2 ^ sh) by (apply Z.pow_pos_nonneg; lia).
  assert (Hv : (if 0 <=? - sh then Z.abs z * 2 ^ sh * 2 ^ (- sh)
                else Z.abs z * 2 ^ sh / 2 ^ sh) = Z.abs z).
  { destruct (Z.leb_spec 0 (- sh)).
    - replace sh with 0 by lia. cbn. lia.
    - apply Z.div_mul. lia. }
  rewrite Hv. f_equal. destruct (Z.ltb_spec z 0); lia.
Qed.

(** X14.  For an integer index [i] from 0 on, [get] returns [undefined]
    exactly when [i] is not below the length; and the index [-0] is the
    index 0. *)
Theorem get_defined_iff_below_length (v : Vector.t) (i : Z) :
  0 <= i < 2 ^ 53 ->
  (get v (of_Z i) = JsUndefined <-> Z.of_nat (Vector.length v) <= i)
  /\ get v neg_zero = get v (of_Z 0).
Proof.
  intros Hi. split; [| reflexivity].
  rewrite (get_at v (of_Z i) (Z.to_nat i))
    by (rewrite Z2Nat.id by lia; apply integer_key_of_Z; lia).
  unfold Vector.length.
  destruct (nth_error (value v) (Z.to_nat i)) as [x |] eqn:E.
  - split; [discriminate |]. intros H.
    assert (Z.to_nat i < List.length (value v))%nat
      by (apply nth_error_Some; congruence). lia.
  - split; [intros _ | reflexivity]. apply nth_error_None in E. lia.
Qed.

Lemma get_defined_iff_below_length_witness :
  let v := {| value := [of_Z 7; of_Z 8] |} in
  0 <= 2 < 2 ^ 53
  /\ get v (of_Z 2) = JsUndefined
  /\ Z.of_nat (Vector.length v) <= 2.
Proof.
  intros v.
  assert (Hi : 0 <= 2 < 2 ^ 53) by (split; [lia | reflexivity]).
  split; [exact Hi |].
  assert (Hu : get v (of_Z 2) = JsUndefined) by (vm_compute; reflexivity).
  split; [exact Hu |].
  exact (proj1 (proj1 (get_defined_iff_below_length v 2 Hi)) Hu).
Defined.

(** X16.  With integer bounds on a Vector constructed from numbers:
    [slice(a, b)] for [0 <= a <= b <= length] holds the elements from
    index [a] to [b - 1]; [slice(a)] drops the first [a] elements;
    [slice(-a)] keeps the last [a] elements; and a start at or past the
    length gives the empty Vector. *)
Theorem slice_integer_bounds (s : list number) (v : Vector.t) (a b : Z) :
  Forall (fun x => is_double x = true) s ->
  constructor (List.map JsNumber s) = Ok v ->
  - 2 ^ 53 < a < 2 ^ 53 ->
  - 2 ^ 53 < b < 2 ^ 53 ->
  let len := Z.of_nat (Vector.length v) in
  (0 <= a <= b /\ b <= len ->
   slice v (Some (of_Z a)) (Some (of_Z b))
   = Ok {| value := firstn (Z.to_nat (b - a)) (skipn (Z.to_nat a) (value v)) |})
  /\ (0 <= a <= len ->
      slice v (Some (of_Z a)) None
      = Ok {| value := skipn (Z.to_nat a) (value v) |})
  /\ (0 < a <= len ->
      slice v (Some (of_Z (- a))) None
      = Ok {| value := skipn (Z.to_nat (len - a)) (value v) |})
  /\ (len <= a ->
      slice v (Some (of_Z a)) (Some (of_Z b)) = Ok {| value := [] |}).
Proof.
  intros Hd Hv Ha Hb len.
  assert (Hs : forall start end_, slice v start end_
             = Ok {| value := Spec.subrange (value v) (Spec.bound_of len 0 start)
                                (Spec.bound_of len len end_) |})
    by (intros; apply (slice_constructed s v _ _ Hd Hv)).
  assert (Hbd : forall z, - 2 ^ 53 < z < 2 ^ 53 ->
                          forall d, Spec.bound_of len d (Some (of_Z z))
                                    = Spec.bound len z).
  { intros z Hz d. cbn [Spec.bound_of]. now rewrite ToIntegerOrInfinity_of_Z. }
  assert (Hskip : forall k, 0 <= k <= len ->
                            Spec.subrange (value v) k len = skipn (Z.to_nat k) (value v)).
  { intros k Hk. unfold Spec.subrange. apply firstn_all2.
    rewrite length_skipn. unfold len, Vector.length in *. lia. }
  split; [| split; [| split]].
  - intros [H1 H2]. rewrite Hs, !Hbd by assumption. unfold Spec.bound.
    destruct (Z.ltb_spec a 0); [lia |]. destruct (Z.ltb_spec b 0); [lia |].
    rewrite (Z.min_r len a), (Z.min_r len b), !Z.max_r by lia. reflexivity.
  - intros H1. rewrite Hs, Hbd by assumption. cbn [Spec.bound_of]. unfold Spec.bound.
    destruct (Z.ltb_spec a 0); [lia |].
    rewrite (Z.min_r len a), Z.max_r by lia. now rewrite Hskip.
  - intros H1. rewrite Hs, Hbd by lia. cbn [Spec.bound_of]. unfold Spec.bound.
    destruct (Z.ltb_spec (- a) 0); [| lia].
    rewrite Z.min_r, Z.max_r by lia.
    replace (len + - a) with (len - a) by lia. rewrite Hskip by lia. reflexivity.
  - intros H1. rewrite Hs, Hbd by assumption. unfold Spec.bound at 1.
    destruct (Z.ltb_spec a 0); [unfold len in *; lia |].
    rewrite Z.min_l, Z.max_r by (unfold len in *; lia).
    f_equal. f_equal. unfold Spec.subrange.
    rewrite skipn_all2 by (unfold len, Vector.length; lia). apply firstn_nil.
Qed.

Lemma slice_integer_bounds_witness :
  let s := [of_Z 1; of_Z 2; of_Z 3; of_Z 4; of_Z 5] in
  let v := {| value := s |} in
  Forall (fun x => is_double x = true) s
  /\ constructor (List.map JsNumber s) = Ok v
  /\ slice v (Some (of_Z (- 2))) None = Ok {| value := [of_Z 4; of_Z 5] |}.
Proof.
  intros s v.
  assert (Hd : Forall (fun x => is_double x = true) s) by (repeat constructor).
  assert (Hv : constructor (List.map JsNumber s) = Ok v) by (vm_compute; reflexivity).
  split; [exact Hd |]. split; [exact Hv |].
  assert (H2 : - 2 ^ 53 < 2 < 2 ^ 53) by (split; reflexivity).
  assert (H0 : - 2 ^ 53 < 0 < 2 ^ 53) by (split; reflexivity).
  assert (Hr : 0 < 2 <= Z.of_nat (Vector.length v))
    by (vm_compute; split; [reflexivity | discriminate]).
  exact (proj1 (proj2 (proj2 (slice_integer_bounds s v 2 0 Hd Hv H2 H0))) Hr).
Defined.
